(** * relicta-tech/plugin-hex: the Hex.pm publishing plugin (plugin.go)

    A shallow embedding of the plugin's validators, configuration resolver,
    command builder and publish orchestrator, with the properties of its
    specification proved (or refuted) against it.

    Go strings are byte sequences: they are [string] here (a list of 8-bit
    [ascii] characters), and the byte-level algorithms of the Go library
    ([filepath.Clean], the rune decoding of [for ... range]) work on
    [list ascii].  Paths follow the Unix build of [path/filepath]
    (separator [/], no volume names). *)

From Stdlib Require Import ZArith Ascii Lia Bool.
From stdpp Require Import gmap strings list.

Local Open Scope Z_scope.

(** ** Go strings *)

Module GoString.

Definition bytes (s : string) : list ascii := String.list_ascii_of_string s.
Definition of_bytes (l : list ascii) : string := String.string_of_list_ascii l.

(** [len(s)]: the number of bytes. *)
Definition len (s : string) : nat := String.length s.

Definition byte_val (c : ascii) : Z := Z.of_N (N_of_ascii c).

(** [strings.HasPrefix], on bytes. *)
Fixpoint has_prefix (s pre : list ascii) {struct pre} : bool :=
  match pre with
  | [] => true
  | c :: pre' =>
      match s with
      | [] => false
      | d :: s' => Ascii.eqb d c && has_prefix s' pre'
      end
  end.

(** [strings.Contains], on bytes: some suffix of [s] starts with [sub]. *)
Fixpoint contains (s sub : list ascii) : bool :=
  has_prefix s sub ||
  match s with
  | [] => false
  | _ :: s' => contains s' sub
  end.

Definition HasPrefix (s pre : string) : bool := has_prefix (bytes s) (bytes pre).
Definition Contains (s sub : string) : bool := contains (bytes s) (bytes sub).

(** [strings.TrimPrefix]: [s] without the leading [pre], or [s] itself. *)
Definition TrimPrefix (s pre : string) : string :=
  if HasPrefix s pre then of_bytes (drop (length (bytes pre)) (bytes s)) else s.

(** [strings.Join]. *)
Fixpoint Join (elems : list string) (sep : string) : string :=
  match elems with
  | [] => ""
  | [e] => e
  | e :: rest => e +:+ sep +:+ Join rest sep
  end.

(** *** Runes: what [for _, r := range s] yields (runtime/utf8.go) *)

Definition rune := Z.

Definition runeError : rune := 0xFFFD.
Definition runeSelf : Z := 0x80.
Definition maxRune : rune := 0x10FFFF.
Definition surrogateMin : rune := 0xD800.
Definition surrogateMax : rune := 0xDFFF.
Definition t2 : Z := 0xC0.
Definition t3 : Z := 0xE0.
Definition t4 : Z := 0xF0.
Definition t5 : Z := 0xF8.
Definition maskx : Z := 0x3F.
Definition mask2 : Z := 0x1F.
Definition mask3 : Z := 0x0F.
Definition mask4 : Z := 0x07.
Definition rune1Max : rune := 0x7F.
Definition rune2Max : rune := 0x7FF.
Definition rune3Max : rune := 0xFFFF.
Definition locb : Z := 0x80.
Definition hicb : Z := 0xBF.

Definition cont (c : ascii) : bool :=
  (locb <=? byte_val c) && (byte_val c <=? hicb).

(** [decoderune(s, k)] on the suffix [s[k:]] (non-empty): the rune and the
    number of bytes it takes. *)
Definition decoderune (s : list ascii) : rune * nat :=
  match s with
  | [] => (runeError, 1%nat)
  | c0 :: s1 =>
      let b0 := byte_val c0 in
      if (t2 <=? b0) && (b0 <? t3) then
        match s1 with
        | c1 :: _ =>
            let r := Z.lor (Z.shiftl (Z.land b0 mask2) 6) (Z.land (byte_val c1) maskx) in
            if cont c1 && (rune1Max <? r) then (r, 2%nat) else (runeError, 1%nat)
        | _ => (runeError, 1%nat)
        end
      else if (t3 <=? b0) && (b0 <? t4) then
        match s1 with
        | c1 :: c2 :: _ =>
            let r := Z.lor (Z.lor (Z.shiftl (Z.land b0 mask3) 12)
                                  (Z.shiftl (Z.land (byte_val c1) maskx) 6))
                           (Z.land (byte_val c2) maskx) in
            if cont c1 && cont c2 && (rune2Max <? r)
               && negb ((surrogateMin <=? r) && (r <=? surrogateMax))
            then (r, 3%nat) else (runeError, 1%nat)
        | _ => (runeError, 1%nat)
        end
      else if (t4 <=? b0) && (b0 <? t5) then
        match s1 with
        | c1 :: c2 :: c3 :: _ =>
            let r := Z.lor (Z.lor (Z.lor (Z.shiftl (Z.land b0 mask4) 18)
                                         (Z.shiftl (Z.land (byte_val c1) maskx) 12))
                                  (Z.shiftl (Z.land (byte_val c2) maskx) 6))
                           (Z.land (byte_val c3) maskx) in
            if cont c1 && cont c2 && cont c3 && (rune3Max <? r) && (r <=? maxRune)
            then (r, 4%nat) else (runeError, 1%nat)
        | _ => (runeError, 1%nat)
        end
      else (runeError, 1%nat)
  end.

(** The runes of a [range] loop, in order.  [skip] counts the bytes of the
    current rune still to step over. *)
Fixpoint range_from (skip : nat) (s : list ascii) : list rune :=
  match s with
  | [] => []
  | c :: s' =>
      match skip with
      | S k => range_from k s'
      | O =>
          if byte_val c <? runeSelf then byte_val c :: range_from 0 s'
          else let '(r, width) := decoderune s in r :: range_from (width - 1) s'
      end
  end.

Definition range (s : string) : list rune := range_from 0 (bytes s).

End GoString.

Import GoString.

(** Go's [error]: [None] is [nil], [Some msg] an error whose [Error()] is
    [msg]. *)
Definition error := option string.

(** ** validateOrganization *)

Definition rune_of (c : ascii) : rune := byte_val c.

(** The loop body's test at one rune: the condition of its [if]. *)
Definition org_rune_invalid (r : rune) : bool :=
  let isLower := (rune_of "a" <=? r) && (r <=? rune_of "z") in
  let isUpper := (rune_of "A" <=? r) && (r <=? rune_of "Z") in
  let isDigit := (rune_of "0" <=? r) && (r <=? rune_of "9") in
  let isHyphen := r =? rune_of "-" in
  let isUnderscore := r =? rune_of "_" in
  negb isLower && negb isUpper && negb isDigit && negb isHyphen && negb isUnderscore.

Fixpoint org_runes_check (rs : list rune) : error :=
  match rs with
  | [] => None
  | r :: rs' =>
      if org_rune_invalid r then
        Some "organization name contains invalid characters: only alphanumeric, hyphens, and underscores are allowed"
      else org_runes_check rs'
  end.

Definition validateOrganization (org : string) : error :=
  if decide (org = "") then None
  else if (128 <? len org)%nat then
    Some "organization name too long (max 128 characters)"
  else org_runes_check (range org).

(** ** filepath.Clean (Unix) and validatePath *)

(** Go's [path/filepath], Unix build: [Clean] follows the library's loop
    round by round ([r] is the start of [path], [out.w] the length of
    [out]); [FromSlash] and the volume name are the identity and empty. *)
Module Filepath.

Definition Separator : ascii := "/"%char.
Definition IsPathSeparator (c : ascii) : bool := Ascii.eqb c Separator.
Definition is_dot (c : ascii) : bool := Ascii.eqb c "."%char.
Global Arguments IsPathSeparator : simpl never.
Global Arguments is_dot : simpl never.

(** [r == n || IsPathSeparator(path[r])] on the rest of the path. *)
Definition end_or_sep (rest : list ascii) : bool :=
  match rest with
  | [] => true
  | c :: _ => IsPathSeparator c
  end.

(** The output buffer [lazybuf] is represented by its contents [buf[:w]];
    [w] is the length of the list.  Backtracking over a [..] element is
    [for out.w > dotdot && !IsPathSeparator(out.index(out.w)) { out.w-- }]. *)
Fixpoint backtrack (buf : list ascii) (dotdot w : nat) : nat :=
  match w with
  | O => O
  | S w' =>
      if (dotdot <? w)%nat && negb (IsPathSeparator (nth w buf Ascii.zero))
      then backtrack buf dotdot w'
      else w
  end.

(** Copy of a real path element:
    [for ; r < n && !IsPathSeparator(path[r]); r++ { out.append(path[r]) }]. *)
Fixpoint copy_elem (path : list ascii) : list ascii * list ascii :=
  match path with
  | [] => ([], [])
  | c :: rest =>
      if IsPathSeparator c then ([], path)
      else let '(e, rest') := copy_elem rest in (c :: e, rest')
  end.

(** The main loop [for r < n { switch ... }] on [path[r:]].  Each round
    consumes at least one byte, so [len(path)] rounds of fuel are enough. *)
Fixpoint clean_loop (fuel : nat) (rooted : bool) (path out : list ascii)
    (dotdot : nat) : list ascii :=
  match fuel with
  | O => out
  | S fuel' =>
      match path with
      | [] => out
      | c :: rest =>
          if IsPathSeparator c then
            (* empty path element *)
            clean_loop fuel' rooted rest out dotdot
          else if is_dot c && end_or_sep rest then
            (* . element *)
            clean_loop fuel' rooted rest out dotdot
          else if is_dot c && is_dot (hd Ascii.zero rest) && end_or_sep (tl rest) then
            (* .. element: remove to last separator *)
            if (dotdot <? length out)%nat then
              let w := backtrack out dotdot (length out - 1) in
              clean_loop fuel' rooted (tl rest) (take w out) dotdot
            else if negb rooted then
              let out1 := if (0 <? length out)%nat then out ++ [Separator] else out in
              let out2 := out1 ++ ["."%char; "."%char] in
              clean_loop fuel' rooted (tl rest) out2 (length out2)
            else clean_loop fuel' rooted (tl rest) out dotdot
          else
            (* real path element: add slash if needed, copy element *)
            let out1 :=
              if (rooted && negb (length out =? 1)%nat)
                 || (negb rooted && negb (length out =? 0)%nat)
              then out ++ [Separator] else out in
            let '(e, rest') := copy_elem path in
            clean_loop fuel' rooted rest' (out1 ++ e) dotdot
      end
  end.

Definition clean (path : list ascii) : list ascii :=
  match path with
  | [] => ["."%char]
  | c :: rest =>
      let rooted := IsPathSeparator c in
      let n := length path in
      let out :=
        if rooted then clean_loop n true rest [Separator] 1
        else clean_loop n false path [] 0 in
      (* Turn empty string into "." *)
      if (length out =? 0)%nat then ["."%char] else out
  end.

Definition Clean (path : string) : string := of_bytes (clean (bytes path)).

(** [filepath.IsAbs] on Unix: [strings.HasPrefix(path, "/")]. *)
Definition IsAbs (path : string) : bool := HasPrefix path "/".

End Filepath.

Import Filepath.

Definition validatePath (path : string) : error :=
  if decide (path = "") then None
  else
    let cleaned := Clean path in
    if IsAbs cleaned then Some "absolute paths are not allowed"
    else if HasPrefix cleaned ".." || Contains cleaned (String Separator "" +:+ "..") then
      Some "path traversal detected: cannot use '..' to escape working directory"
    else None.

(** ** The plugin SDK's types (relicta-plugin-sdk/plugin) *)

(** Go's [any], for the values a configuration or an output map holds. *)
Inductive any : Type :=
  | VString (s : string)
  | VBool (b : bool)
  | VInt (n : Z)
  | VNil.

Global Instance any_eq_dec : EqDecision any.
Proof. solve_decision. Defined.

Module plugin.

Definition Hook := string.

(** The fields of the release context that the tests set; the plugin reads
    [Version] only. *)
Record ReleaseContext := {
  Version : string;
  TagName : string;
  ReleaseType : string;
  Branch : string;
  CommitSHA : string;
}.

Record ExecuteRequest := {
  Hook_ : Hook;
  Config : gmap string any;
  Context : ReleaseContext;
  DryRun : bool;
}.

(** [Outputs] is a Go map: [None] is the nil map of a response that sets
    no outputs. *)
Record ExecuteResponse := {
  Success : bool;
  Message : string;
  Error : string;
  Outputs : option (gmap string any);
}.

End plugin.

(** ** Configuration helpers (relicta-plugin-sdk/helpers) *)

Module helpers.

(** [os.Getenv] reads the process environment, a finite map here. *)
Abbreviation Environ := (gmap string string).

Record ConfigParser := NewConfigParser { raw : gmap string any }.

(** Modelled from the spec: [ConfigParser.GetString] of the SDK's helpers
    package, whose source is not part of this repository.  Resolution
    order: the explicit value in the raw configuration if present and a
    string, then the named environment variable (none when the name is
    empty), then the default. *)
Definition GetString (environ : Environ) (p : ConfigParser)
    (key envVar defaultVal : string) : string :=
  match raw p !! key with
  | Some (VString v) => v
  | _ =>
      if decide (envVar = "") then defaultVal
      else match environ !! envVar with
           | Some v => v
           | None => defaultVal
           end
  end.

(** Modelled from the spec: [ConfigParser.GetBool] of the SDK's helpers
    package.  A native boolean, or the case-sensitive strings ["true"] and
    ["false"]; the default otherwise. *)
Definition GetBool (p : ConfigParser) (key : string) (defaultVal : bool) : bool :=
  match raw p !! key with
  | Some (VBool b) => b
  | Some (VString v) =>
      if decide (v = "true") then true
      else if decide (v = "false") then false
      else defaultVal
  | _ => defaultVal
  end.

End helpers.

(** ** The executor abstraction *)

(** What [Run] returns: the captured combined output and the error. *)
Definition RunResult : Type := string * error.

(** [CommandExecutor]: an executor of type [E] runs a command and may change
    its own state (it is used through a pointer). *)
Class CommandExecutor (E : Type) :=
  Run : E → string → list string → list string → string → RunResult * E.

(** The recording test double of plugin_test.go. *)
Record MockCall := {
  Name : string;
  Args : list string;
  Env : list string;
  Dir : string;
}.

Record MockCommandExecutor := {
  RunFunc : option (string → list string → list string → string → RunResult);
  Calls : list MockCall;
}.

Global Instance MockCommandExecutor_Run : CommandExecutor MockCommandExecutor :=
  λ m name args env dir,
    let m' := {| RunFunc := RunFunc m;
                 Calls := Calls m ++ [{| Name := name; Args := args; Env := env; Dir := dir |}] |} in
    match RunFunc m with
    | Some f => (f name args env dir, m')
    | None => (("mock output", None), m')
    end.

(** The child process that [RealCommandExecutor] starts. *)
Record Cmd := {
  CmdPath : string;
  CmdArgs : list string;
  (** [None]: the child inherits the environment of the process. *)
  CmdEnv : option (list string);
  CmdDir : string;
}.

(** ** The plugin *)

Record Config := {
  APIKey : string;
  Organization : string;
  Replace : bool;
  Yes : bool;
  WorkDir : string;
}.

(** [executor] is an interface value: [None] is nil. *)
Record HexPlugin (E : Type) := { executor : option E }.
Arguments executor {E} _.

Section Plugin.

(** The process environment, the operating system's way of running a child
    process to completion ([exec.Cmd.CombinedOutput]), and the SDK's
    constant for the hook this plugin handles. *)
Variable environ : helpers.Environ.
Variable CombinedOutput : Cmd → RunResult.
Variable HookPostPublish : plugin.Hook.

Context {E : Type} `{!CommandExecutor E}.

(** [os.Environ()]: the environment as [key=value] strings. *)
Definition os_Environ : list string :=
  (λ kv, kv.1 +:+ "=" +:+ kv.2) <$> map_to_list environ.

(** [RealCommandExecutor.Run]. *)
Definition RealCommandExecutor_Run (name : string) (args env : list string)
    (dir : string) : RunResult :=
  CombinedOutput
    {| CmdPath := name;
       CmdArgs := args;
       CmdEnv := if (0 <? length env)%nat then Some (os_Environ ++ env) else None;
       CmdDir := dir |}.

(** [p.getExecutor().Run(ctx, name, args, env, dir)]: the plugin's own
    executor, or the real one when none is set. *)
Definition runExecutor (p : HexPlugin E) (name : string) (args env : list string)
    (dir : string) : RunResult * HexPlugin E :=
  match executor p with
  | Some e => let '(res, e') := Run e name args env dir in (res, {| executor := Some e' |})
  | None => (RealCommandExecutor_Run name args env dir, p)
  end.

Definition parseConfig (raw : gmap string any) : Config :=
  let parser := helpers.NewConfigParser raw in
  {| APIKey := helpers.GetString environ parser "api_key" "HEX_API_KEY" "";
     Organization := helpers.GetString environ parser "organization" "HEX_ORGANIZATION" "";
     Replace := helpers.GetBool parser "replace" false;
     Yes := helpers.GetBool parser "yes" true;
     WorkDir := helpers.GetString environ parser "work_dir" "" "." |}.

(** The argument list that [publish] builds. *)
Definition publish_args (cfg : Config) : list string :=
  let args := ["hex.publish"] in
  let args :=
    if negb (bool_decide (Organization cfg = ""))
    then args ++ ["--organization"; Organization cfg] else args in
  let args := if Replace cfg then args ++ ["--replace"] else args in
  let args := if Yes cfg then args ++ ["--yes"] else args in
  args.

(** [publish] returns the response, the (always nil) error, and the plugin
    with the state its executor is left in. *)
Definition publish (p : HexPlugin E) (cfg : Config)
    (releaseCtx : plugin.ReleaseContext) (dryRun : bool)
    : (plugin.ExecuteResponse * error) * HexPlugin E :=
  match validatePath (WorkDir cfg) with
  | Some err =>
      (({| plugin.Success := false; plugin.Message := "";
           plugin.Error := "invalid work_dir: " +:+ err;
           plugin.Outputs := None |}, None), p)
  | None =>
  match validateOrganization (Organization cfg) with
  | Some err =>
      (({| plugin.Success := false; plugin.Message := "";
           plugin.Error := "invalid organization: " +:+ err;
           plugin.Outputs := None |}, None), p)
  | None =>
      let args := publish_args cfg in
      let version := TrimPrefix (plugin.Version releaseCtx) "v" in
      if dryRun then
        (({| plugin.Success := true;
             plugin.Message := "Would publish package to Hex.pm";
             plugin.Error := "";
             plugin.Outputs := Some
               (<["command" := VString ("mix " +:+ Join args " ")]>
                (<["version" := VString version]>
                 (<["organization" := VString (Organization cfg)]>
                  (<["replace" := VBool (Replace cfg)]> ∅)))) |}, None), p)
      else if bool_decide (APIKey cfg = "") then
        (({| plugin.Success := false; plugin.Message := "";
             plugin.Error := "HEX_API_KEY is required: set api_key in config or HEX_API_KEY environment variable";
             plugin.Outputs := None |}, None), p)
      else
        let env := ["HEX_API_KEY=" +:+ APIKey cfg] in
        let '((output, err), p') := runExecutor p "mix" args env (WorkDir cfg) in
        match err with
        | Some e =>
            (({| plugin.Success := false; plugin.Message := "";
                 plugin.Error := "mix hex.publish failed: " +:+ e
                                 +:+ String "010" "Output: " +:+ output;
                 plugin.Outputs := None |}, None), p')
        | None =>
            (({| plugin.Success := true;
                 plugin.Message := "Published package v" +:+ version +:+ " to Hex.pm";
                 plugin.Error := "";
                 plugin.Outputs := Some
                   (<["version" := VString version]>
                    (<["organization" := VString (Organization cfg)]>
                     (<["output" := VString output]> ∅))) |}, None), p')
        end
  end
  end.

Definition Execute (p : HexPlugin E) (req : plugin.ExecuteRequest)
    : (plugin.ExecuteResponse * error) * HexPlugin E :=
  let cfg := parseConfig (plugin.Config req) in
  if bool_decide (plugin.Hook_ req = HookPostPublish) then
    publish p cfg (plugin.Context req) (plugin.DryRun req)
  else
    (({| plugin.Success := true;
         plugin.Message := "Hook " +:+ plugin.Hook_ req +:+ " not handled";
         plugin.Error := "";
         plugin.Outputs := None |}, None), p).

End Plugin.

(** ** Metadata and configuration validation *)

(** Further types of the SDK: the plugin's metadata and the answer of a
    configuration validation. *)
Module sdk.

Record Info := {
  Name : string;
  Version : string;
  Description : string;
  Author : string;
  Hooks : list plugin.Hook;
  ConfigSchema : string;
}.

Record ValidationError := {
  Field : string;
  Message : string;
}.

Record ValidateResponse := {
  Valid : bool;
  Errors : list ValidationError;
}.

(** Modelled from the spec: [ValidationBuilder] of the SDK's helpers
    package, whose source is not part of this repository.  It collects
    {field, message} pairs in the order they are added; the response it
    builds is valid exactly when none was added (TestValidationBuilder). *)
Record ValidationBuilder := { errors : list ValidationError }.

Definition NewValidationBuilder : ValidationBuilder := {| errors := [] |}.

Definition AddError (vb : ValidationBuilder) (field message : string) : ValidationBuilder :=
  {| errors := errors vb ++ [{| Field := field; Message := message |}] |}.

Definition Build (vb : ValidationBuilder) : ValidateResponse :=
  {| Valid := bool_decide (errors vb = []); Errors := errors vb |}.

End sdk.

(** The text of a Go raw string: [tabs n] is its indentation, [dq] writes
    the double quotes of the text (given here as single quotes), [nl] ends a
    line. *)
Definition nl : string := String "010" "".

Fixpoint tabs (n : nat) : string :=
  match n with
  | O => ""
  | S n' => String "009" (tabs n')
  end.

Fixpoint dq (s : string) : string :=
  match s with
  | EmptyString => EmptyString
  | String c s' => String (if Ascii.eqb c "'" then "034"%char else c) (dq s')
  end.

Definition ConfigSchema_lines : list string :=
  [ dq "{";
    tabs 3 +:+ dq "'type': 'object',";
    tabs 3 +:+ dq "'properties': {";
    tabs 4 +:+ dq "'api_key': {'type': 'string', 'description': 'Hex.pm API key (or use HEX_API_KEY env)'},";
    tabs 4 +:+ dq "'organization': {'type': 'string', 'description': 'Hex.pm organization for private packages'},";
    tabs 4 +:+ dq "'replace': {'type': 'boolean', 'description': 'Replace existing package version', 'default': false},";
    tabs 4 +:+ dq "'yes': {'type': 'boolean', 'description': 'Skip confirmation prompt', 'default': true},";
    tabs 4 +:+ dq "'work_dir': {'type': 'string', 'description': 'Working directory for mix command', 'default': '.'}";
    tabs 3 +:+ dq "}";
    tabs 2 +:+ dq "}" ].

Section Metadata.

Variable environ : helpers.Environ.
Variable HookPostPublish : plugin.Hook.
Context {E : Type}.

(** [GetInfo]: the receiver is not read. *)
Definition GetInfo (p : HexPlugin E) : sdk.Info :=
  {| sdk.Name := "hex";
     sdk.Version := "2.0.0";
     sdk.Description := "Publish packages to Hex.pm (Elixir)";
     sdk.Author := "Relicta Team";
     sdk.Hooks := [HookPostPublish];
     sdk.ConfigSchema := Join ConfigSchema_lines nl |}.

(** [Validate]: the response and the (always nil) error. *)
Definition Validate (p : HexPlugin E) (config : gmap string any)
    : sdk.ValidateResponse * error :=
  let vb := sdk.NewValidationBuilder in
  let parser := helpers.NewConfigParser config in
  (* Validate work_dir if provided *)
  let workDir := helpers.GetString environ parser "work_dir" "" "." in
  let vb :=
    match validatePath workDir with
    | Some err => sdk.AddError vb "work_dir" err
    | None => vb
    end in
  (* Validate organization if provided *)
  let org := helpers.GetString environ parser "organization" "HEX_ORGANIZATION" "" in
  let vb :=
    match validateOrganization org with
    | Some err => sdk.AddError vb "organization" err
    | None => vb
    end in
  (sdk.Build vb, None).

End Metadata.

(** * Vocabulary of the specification *)

(** The alphabet [A-Za-z0-9_-], written out. *)
Definition org_alphabet : list ascii :=
  bytes "ABCDEFGHIJKLMNOPQRSTUVWXYZabcdefghijklmnopqrstuvwxyz0123456789_-".

(** The bytes of an argument: a dot, or a byte of the alphabet. *)
Definition arg_byte_ok (c : ascii) : bool :=
  Ascii.eqb c "."%char || existsb (Ascii.eqb c) org_alphabet.

(** *** Path components and the lexical meaning of a path *)

Module PathSpec.

Abbreviation seg := (list ascii).

Definition dot : seg := ["."%char].
Definition dotdot : seg := ["."%char; "."%char].

(** The components of a path: the pieces between separators. *)
Fixpoint segments (p : list ascii) : list seg :=
  match p with
  | [] => [[]]
  | c :: rest =>
      if IsPathSeparator c then [] :: segments rest
      else match segments rest with
           | s :: ss => (c :: s) :: ss
           | [] => [[c]]
           end
  end.

Fixpoint join_sep (segs : list seg) : list ascii :=
  match segs with
  | [] => []
  | [s] => s
  | s :: ss => s ++ Separator :: join_sep ss
  end.

Definition sepfree (s : seg) : Prop := Forall (λ c, IsPathSeparator c = false) s.

(** A path climbs above its starting directory when, walking its
    components from depth 0 ([""] and [.] stay, a name descends, [..]
    ascends), a [..] is met at depth 0. *)
Fixpoint climbs (depth : nat) (segs : list seg) : bool :=
  match segs with
  | [] => false
  | s :: rest =>
      if decide (s = [] ∨ s = dot) then climbs depth rest
      else if decide (s = dotdot) then
        match depth with
        | O => true
        | S d => climbs d rest
        end
      else climbs (S depth) rest
  end.

(** The state of the lexical walk of a relative path: the number of
    leading [..] kept, and the names after them (innermost first). *)
Definition step (st : nat * list seg) (s : seg) : nat * list seg :=
  if decide (s = [] ∨ s = dot) then st
  else if decide (s = dotdot) then
    match st.2 with
    | _ :: stack' => (st.1, stack')
    | [] => (S st.1, [])
    end
  else (st.1, s :: st.2).

Definition render (st : nat * list seg) : list ascii :=
  join_sep (replicate st.1 dotdot ++ reverse st.2).

Definition dd (ups : nat) : nat := length (join_sep (replicate ups dotdot)).

End PathSpec.

Import PathSpec.

(** A component that the loop has written to the buffer. *)
Definition real_elem (s : seg) : Prop := s ≠ [] ∧ sepfree s.

(** The walk of the components of a path, from the empty state. *)
Definition walk (p : list ascii) : nat * list seg := foldl step (0%nat, []) (segments p).

(** A name: a component that the walk pushes. *)
Definition is_name (s : seg) : Prop := s ≠ [] ∧ s ≠ dot ∧ s ≠ dotdot.

(** The argument sequence of the specification, in its fixed order. *)
Definition expected_args (org : string) (replace yes : bool) : list string :=
  ["hex.publish"]
  ++ (if bool_decide (org = "") then [] else ["--organization"; org])
  ++ (if replace then ["--replace"] else [])
  ++ (if yes then ["--yes"] else []).

(** A recording executor with no calls yet, answering every run with [res]. *)
Definition mock_plugin (res : RunResult) : HexPlugin MockCommandExecutor :=
  {| executor := Some {| RunFunc := Some (λ _ _ _ _, res); Calls := [] |} |}.

Definition release (version : string) : plugin.ReleaseContext :=
  {| plugin.Version := version; plugin.TagName := "v1.0.0";
     plugin.ReleaseType := "minor"; plugin.Branch := "main";
     plugin.CommitSHA := "abc123" |}.

(** * Properties *)

(** ** Test vectors *)

(** [filepath.Clean] on the shapes of path that matter below. *)
Example Clean_inner_dotdot : Clean "a/../b" = "b".
Proof. vm_compute. reflexivity. Qed.
Example Clean_climbing : Clean "packages/../../secret" = "../secret".
Proof. vm_compute. reflexivity. Qed.
Example Clean_rooted : Clean "/a//b/./c/../../d/" = "/a/d".
Proof. vm_compute. reflexivity. Qed.
Example Clean_rooted_dotdot : Clean "/../a" = "/a".
Proof. vm_compute. reflexivity. Qed.
Example Clean_leading_dotdots : Clean "../../a/b/../.." = "../..".
Proof. vm_compute. reflexivity. Qed.
Example Clean_to_dot : Clean "a/.." = ".".
Proof. vm_compute. reflexivity. Qed.
Example Clean_dotted_names : Clean "./a/.b/..c/" = "a/.b/..c".
Proof. vm_compute. reflexivity. Qed.

(** The cases of TestValidatePath. *)
Example validatePath_tests :
  validatePath "" = None
  ∧ validatePath "." = None
  ∧ validatePath "packages/my-lib" = None
  ∧ validatePath "a/b/c/d" = None
  ∧ validatePath "/etc/passwd" = Some "absolute paths are not allowed"
  ∧ validatePath "../secret"
    = Some "path traversal detected: cannot use '..' to escape working directory"
  ∧ validatePath "packages/../../secret"
    = Some "path traversal detected: cannot use '..' to escape working directory".
Proof. split_and!; vm_compute; reflexivity. Qed.

(** The cases of TestValidateOrganization, and a name that is not ASCII
    ([0xC3 0xA9], the UTF-8 encoding of U+00E9). *)
Example validateOrganization_tests :
  validateOrganization "" = None
  ∧ validateOrganization "my-org" = None
  ∧ validateOrganization "my_org" = None
  ∧ validateOrganization "myorg123" = None
  ∧ validateOrganization "MyOrg" = None
  ∧ validateOrganization "my org" ≠ None
  ∧ validateOrganization "my-org$" ≠ None
  ∧ validateOrganization "org;rm -rf /" ≠ None
  ∧ validateOrganization (of_bytes (replicate 129 "a"%char))
    = Some "organization name too long (max 128 characters)"
  ∧ validateOrganization (of_bytes (replicate 128 "a"%char)) = None
  ∧ range (String "195" (String "169" "")) = [0xE9]
  ∧ validateOrganization (String "195" (String "169" "")) ≠ None.
Proof. split_and!; vm_compute; (reflexivity || discriminate). Qed.

(** ** The organization validator *)

Section Organization.

Lemma elem_of_existsb (c : ascii) (l : list ascii) :
  c ∈ l ↔ existsb (Ascii.eqb c) l = true.
Proof.
  rewrite existsb_exists, list_elem_of_In. split.
  - intros H. exists c. split; [done | apply Ascii.eqb_refl].
  - intros (d & Hd & E). apply Ascii.eqb_eq in E. by subst.
Qed.

Lemma org_alphabet_test (c : ascii) :
  org_rune_invalid (byte_val c) = negb (existsb (Ascii.eqb c) org_alphabet).
Proof. destruct c as [[] [] [] [] [] [] [] []]; vm_compute; reflexivity. Qed.

Lemma org_alphabet_spec (c : ascii) :
  org_rune_invalid (byte_val c) = false ↔ c ∈ org_alphabet.
Proof.
  rewrite org_alphabet_test, elem_of_existsb.
  destruct (existsb _ _); simpl; intuition congruence.
Qed.

Lemma org_rune_invalid_high (r : rune) : 0x7F < r → org_rune_invalid r = true.
Proof.
  intros Hr. unfold org_rune_invalid.
  change (rune_of "a") with 97. change (rune_of "z") with 122.
  change (rune_of "A") with 65. change (rune_of "Z") with 90.
  change (rune_of "0") with 48. change (rune_of "9") with 57.
  change (rune_of "-") with 45. change (rune_of "_") with 95.
  assert ((r <=? 122) = false) as -> by lia.
  assert ((r <=? 90) = false) as -> by lia.
  assert ((r <=? 57) = false) as -> by lia.
  assert ((r =? 45) = false) as -> by lia.
  assert ((r =? 95) = false) as -> by lia.
  by rewrite !andb_false_r.
Qed.

(** Every rune that [decoderune] produces is outside the ASCII range (or is
    the error rune), hence outside the alphabet. *)
Lemma decoderune_invalid (s : list ascii) :
  org_rune_invalid (decoderune s).1 = true.
Proof.
  unfold decoderune.
  repeat case_match; simpl; try reflexivity;
    apply org_rune_invalid_high;
    repeat match goal with
           | H : _ && _ = true |- _ => apply andb_true_iff in H; destruct H
           end;
    unfold rune1Max, rune2Max, rune3Max in *; lia.
Qed.

Lemma org_runes_check_None (rs : list rune) :
  org_runes_check rs = None ↔ Forall (λ r, org_rune_invalid r = false) rs.
Proof.
  induction rs as [|r rs IH]; simpl.
  - split; [constructor | done].
  - rewrite Forall_cons. destruct (org_rune_invalid r); [|tauto].
    split; [discriminate | intros [? _]; discriminate].
Qed.

(** A string ranges over valid runes only if it is plain ASCII, and then
    its runes are its bytes. *)
Lemma range_from_valid (s : list ascii) :
  Forall (λ r, org_rune_invalid r = false) (range_from 0 s)
  ↔ Forall (λ c, org_rune_invalid (byte_val c) = false) s.
Proof.
  induction s as [|c s IH]; cbn [range_from].
  - split; constructor.
  - destruct (byte_val c <? runeSelf) eqn:Hc.
    + by rewrite !Forall_cons, IH.
    + pose proof (decoderune_invalid (c :: s)) as Hd.
      destruct (decoderune (c :: s)) as [r width]. simpl in Hd.
      rewrite !Forall_cons. rewrite Hd.
      rewrite (org_rune_invalid_high (byte_val c)) by (unfold runeSelf in Hc; lia).
      split; intros [? _]; discriminate.
Qed.

Lemma range_from_ascii (s : list ascii) :
  Forall (λ c, byte_val c < runeSelf) s → range_from 0 s = map byte_val s.
Proof.
  induction 1 as [|c s Hc _ IH]; simpl; [done|].
  assert ((byte_val c <? runeSelf) = true) as -> by lia. by rewrite IH.
Qed.

Lemma validateOrganization_None (org : string) :
  validateOrganization org = None
  ↔ (len org ≤ 128)%nat ∧ Forall (λ r, org_rune_invalid r = false) (range org).
Proof.
  unfold validateOrganization. destruct (decide (org = "")) as [->|_].
  - split; [intros _|done]. split; [simpl; lia | constructor].
  - destruct (128 <? len org)%nat eqn:Hl.
    + apply Nat.ltb_lt in Hl. split; [discriminate | lia].
    + apply Nat.ltb_ge in Hl. rewrite org_runes_check_None. tauto.
Qed.

End Organization.

(** C4. The organization validator accepts exactly the strings over
    [A-Za-z0-9_-] of at most 128 bytes: it returns no error if and only if
    the length is at most 128 and every byte is in the alphabet; read by
    runes (as the loop does), if and only if the length is at most 128 and
    every rune is the code of an alphabet character.  So every string with a
    character outside the set, or longer than 128, fails, and the empty
    string succeeds. *)
Theorem validateOrganization_accepts_exactly (org : string) :
  (validateOrganization org = None
   ↔ (len org ≤ 128)%nat ∧ ∀ c, c ∈ bytes org → c ∈ org_alphabet)
  ∧ (validateOrganization org = None
     ↔ (len org ≤ 128)%nat ∧ ∀ r, r ∈ range org → r ∈ map byte_val org_alphabet).
Proof.
  assert (Hb : Forall (λ r, org_rune_invalid r = false) (range org)
               ↔ ∀ c, c ∈ bytes org → c ∈ org_alphabet).
  { unfold range. rewrite range_from_valid, Forall_forall.
    split; intros H c Hc; apply org_alphabet_spec, H, Hc. }
  split.
  - rewrite validateOrganization_None. by rewrite Hb.
  - rewrite validateOrganization_None. split.
    + intros [Hl Hr]. split; [done|]. intros r Hin.
      assert (Has : Forall (λ c, byte_val c < runeSelf) (bytes org)).
      { apply Forall_forall. intros c Hc.
        apply Hb in Hc; [|done]. apply org_alphabet_spec in Hc.
        destruct (Z.ltb_spec (byte_val c) runeSelf) as [|Hge]; [done|].
        rewrite org_rune_invalid_high in Hc; [discriminate | unfold runeSelf in Hge; lia]. }
      unfold range in Hin. rewrite (range_from_ascii _ Has) in Hin.
      apply list_elem_of_fmap in Hin as (c & -> & Hc).
      apply list_elem_of_fmap. exists c. split; [done|]. by apply Hb.
    + intros [Hl Hr]. split; [done|]. apply Forall_forall. intros r Hin.
      apply Hr, list_elem_of_fmap in Hin as (c & -> & Hc).
      by apply org_alphabet_spec.
Qed.

(** ** The working-directory validator *)

Section Segments.

Lemma segments_nonempty (p : list ascii) : segments p ≠ [].
Proof.
  induction p as [|c p IH]; simpl; [done|].
  destruct (IsPathSeparator c); [done|]. by destruct (segments p).
Qed.

Lemma join_sep_cons (s : seg) (ss : list seg) :
  ss ≠ [] → join_sep (s :: ss) = s ++ Separator :: join_sep ss.
Proof. by destruct ss. Qed.

Lemma join_segments (p : list ascii) : join_sep (segments p) = p.
Proof.
  induction p as [|c p IH]; simpl; [done|].
  destruct (IsPathSeparator c) eqn:Hc.
  - apply Ascii.eqb_eq in Hc. subst c.
    rewrite join_sep_cons by apply segments_nonempty. by rewrite IH.
  - pose proof (segments_nonempty p) as Hne.
    destruct (segments p) as [|s ss]; [done|].
    destruct ss as [|s' ss]; simpl in *; by rewrite <- IH.
Qed.

Lemma segments_sepfree (p : list ascii) : Forall sepfree (segments p).
Proof.
  induction p as [|c p IH]; simpl.
  - repeat constructor.
  - destruct (IsPathSeparator c) eqn:Hc.
    + constructor; [constructor | done].
    + destruct (segments p) as [|s ss]; [repeat constructor; done|].
      inversion IH; subst. constructor; [by constructor | done].
Qed.

Lemma join_sep_snoc (l : list seg) (s : seg) :
  join_sep (l ++ [s]) = if decide (l = []) then s else join_sep l ++ Separator :: s.
Proof.
  induction l as [|x l IH]; [done|].
  destruct (decide (x :: l = [])) as [|_]; [done|].
  change ((x :: l) ++ [s]) with (x :: (l ++ [s])).
  rewrite join_sep_cons by (by destruct l).
  rewrite IH. destruct (decide (l = [])) as [->|Hl]; [done|].
  rewrite join_sep_cons by done. by rewrite <- app_assoc.
Qed.

Lemma join_sep_nil (l : list seg) :
  Forall (λ s, s ≠ []) l → join_sep l = [] → l = [].
Proof.
  destruct l as [|x l]; [done|]. intros Hl. inversion Hl; subst.
  destruct l; simpl; [done|]. by destruct x.
Qed.

End Segments.

(** *** [filepath.Clean] computes the lexical walk *)

Section CleanLoop.

Lemma clean_loop_nil fuel rooted out d :
  clean_loop fuel rooted [] out d = out.
Proof. by destruct fuel. Qed.

Lemma clean_loop_sep fuel rooted rest out d :
  clean_loop (S fuel) rooted (Separator :: rest) out d
  = clean_loop fuel rooted rest out d.
Proof. reflexivity. Qed.

Lemma copy_elem_app (s : seg) (tail : list ascii) :
  sepfree s → end_or_sep tail = true → copy_elem (s ++ tail) = (s, tail).
Proof.
  intros Hs Ht. induction Hs as [|c s Hc _ IH]; simpl.
  - destruct tail as [|c tail]; simpl in *; [done|]. by rewrite Ht.
  - by rewrite Hc, IH.
Qed.

Lemma sepfree_nth (s : seg) (k : nat) :
  sepfree s → (k < length s)%nat → IsPathSeparator (nth k s Ascii.zero) = false.
Proof.
  intros Hs Hk. unfold sepfree in Hs. rewrite Forall_forall in Hs.
  apply Hs, list_elem_of_In, nth_In, Hk.
Qed.

(** Backtracking from inside the last element stops right after the
    separator that precedes it ... *)
Lemma backtrack_after_sep (pre x : list ascii) (d k : nat) :
  sepfree x → (d ≤ length pre)%nat → (k ≤ length x)%nat →
  backtrack (pre ++ Separator :: x) d (length pre + k) = length pre.
Proof.
  intros Hx Hd. induction k as [|k IH]; intros Hk.
  - rewrite Nat.add_0_r. destruct (length pre) as [|n] eqn:Hn; [done|].
    simpl backtrack. rewrite <- Hn.
    replace (nth (length pre) (pre ++ Separator :: x) Ascii.zero) with Separator.
    + by rewrite andb_false_r.
    + rewrite <- (Nat.add_0_r (length pre)) at 1. by rewrite app_nth2_plus.
  - rewrite Nat.add_succ_r. simpl backtrack. rewrite <- Nat.add_succ_r.
    rewrite app_nth2_plus. simpl nth.
    rewrite sepfree_nth by (done || lia).
    assert ((d <? length pre + S k)%nat = true) as -> by (apply Nat.ltb_lt; lia).
    simpl. apply IH. lia.
Qed.

(** ... and at the start of the buffer when the element is the only one. *)
Lemma backtrack_to_start (x : list ascii) (k : nat) :
  sepfree x → (k < length x)%nat → backtrack x 0 k = 0%nat.
Proof.
  intros Hx. induction k as [|k IH]; intros Hk; [done|].
  simpl backtrack. rewrite sepfree_nth by done. simpl. apply IH. lia.
Qed.

Lemma backtrack_ge (buf : list ascii) (d w : nat) :
  (d ≤ w)%nat → (d ≤ backtrack buf d w)%nat.
Proof.
  induction w as [|w IH]; intros Hw; simpl; [lia|].
  destruct (d <? S w)%nat eqn:Hlt; simpl; [|done].
  apply Nat.ltb_lt in Hlt.
  destruct (IsPathSeparator _); simpl; [done|]. apply IH. lia.
Qed.

Lemma dotdot_sepfree : sepfree dotdot.
Proof. repeat constructor. Qed.

Lemma dd_S (ups : nat) :
  replicate (S ups) dotdot = replicate ups dotdot ++ [dotdot].
Proof.
  induction ups as [|n IH]; [done|].
  change (replicate (S (S n)) dotdot) with (dotdot :: replicate (S n) dotdot).
  rewrite IH at 1. done.
Qed.

Lemma join_sep_app_length (l1 l2 : list seg) :
  (length (join_sep l1) ≤ length (join_sep (l1 ++ l2)))%nat.
Proof.
  induction l2 as [|x l2 IH] using rev_ind.
  - by rewrite app_nil_r.
  - rewrite app_assoc, join_sep_snoc.
    destruct (decide (l1 ++ l2 = [])) as [E|_].
    + apply app_eq_nil in E as [-> _]. simpl. lia.
    + rewrite length_app. lia.
Qed.

Lemma stack_app_nil (ups : nat) (stack : list seg) :
  replicate ups dotdot ++ reverse stack = [] ↔ ups = 0%nat ∧ stack = [].
Proof.
  split.
  - intros E. apply app_eq_nil in E as [E1 E2]. split.
    + by destruct ups.
    + destruct stack as [|x stack]; [done|].
      rewrite reverse_cons in E2. by destruct (reverse stack).
  - by intros [-> ->].
Qed.

Lemma render_push (ups : nat) (stack : list seg) (s : seg) :
  render (ups, s :: stack)
  = if decide (ups = 0%nat ∧ stack = []) then s
    else render (ups, stack) ++ Separator :: s.
Proof.
  unfold render. simpl. rewrite reverse_cons, app_assoc, join_sep_snoc.
  destruct (decide (ups = 0%nat ∧ stack = [])) as [E|E].
  - rewrite decide_True; [done | by apply stack_app_nil].
  - rewrite decide_False; [done | by rewrite stack_app_nil].
Qed.

Lemma render_up (ups : nat) :
  render (S ups, [])
  = if decide (ups = 0%nat) then dotdot
    else render (ups, []) ++ Separator :: dotdot.
Proof.
  unfold render. simpl fst. simpl snd. rewrite !app_nil_r, dd_S, join_sep_snoc.
  destruct (decide (ups = 0%nat)) as [->|E]; [done|].
  rewrite decide_False; [done | by destruct ups].
Qed.

Lemma dd_render (ups : nat) : dd ups = length (render (ups, [])).
Proof. unfold dd, render. simpl. by rewrite app_nil_r. Qed.

Lemma render_length_ge (ups : nat) (stack : list seg) :
  (dd ups ≤ length (render (ups, stack)))%nat.
Proof. apply join_sep_app_length. Qed.

Lemma render_nil (ups : nat) (stack : list seg) :
  Forall real_elem stack →
  render (ups, stack) = [] ↔ ups = 0%nat ∧ stack = [].
Proof.
  intros Hst. split; [|by intros [-> ->]].
  intros E. apply stack_app_nil. revert E. apply join_sep_nil.
  apply Forall_app. split.
  - apply Forall_replicate. done.
  - apply Forall_reverse. eapply Forall_impl; [exact Hst|]. by intros x [? _].
Qed.

Lemma clean_loop_unfold fuel rooted c rest out dotdot :
  clean_loop (S fuel) rooted (c :: rest) out dotdot =
    if IsPathSeparator c then clean_loop fuel rooted rest out dotdot
    else if is_dot c && end_or_sep rest then clean_loop fuel rooted rest out dotdot
    else if is_dot c && is_dot (hd Ascii.zero rest) && end_or_sep (tl rest) then
      if (dotdot <? length out)%nat then
        let w := backtrack out dotdot (length out - 1) in
        clean_loop fuel rooted (tl rest) (take w out) dotdot
      else if negb rooted then
        let out1 := if (0 <? length out)%nat then out ++ [Separator] else out in
        let out2 := out1 ++ ["."%char; "."%char] in
        clean_loop fuel rooted (tl rest) out2 (length out2)
      else clean_loop fuel rooted (tl rest) out dotdot
    else
      let out1 :=
        if (rooted && negb (length out =? 1)%nat)
           || (negb rooted && negb (length out =? 0)%nat)
        then out ++ [Separator] else out in
      let '(e, rest') := copy_elem (c :: rest) in
      clean_loop fuel rooted rest' (out1 ++ e) dotdot.
Proof. reflexivity. Qed.

Lemma copy_elem_length (path : list ascii) :
  (length (copy_elem path).2 ≤ length path)%nat.
Proof.
  induction path as [|c path IH]; simpl; [done|].
  destruct (IsPathSeparator c); simpl; [done|].
  destruct (copy_elem path) as [e rest']. simpl in *. lia.
Qed.

(** [len(path)] rounds are enough: more fuel does not change the result. *)
Lemma clean_loop_fuel_enough (fuel : nat) :
  ∀ rooted path out dotdot, (length path ≤ fuel)%nat →
    clean_loop (S fuel) rooted path out dotdot = clean_loop fuel rooted path out dotdot.
Proof.
  induction fuel as [|fuel IH]; intros rooted path out dotdot Hlen.
  - destruct path; [done | simpl in Hlen; lia].
  - destruct path as [|c rest]; [done|]. simpl in Hlen.
    rewrite (clean_loop_unfold (S fuel)), (clean_loop_unfold fuel).
    assert (Htl : (length (tl rest) ≤ fuel)%nat) by (destruct rest; simpl in *; lia).
    destruct (IsPathSeparator c) eqn:Hc; [apply IH; lia|].
    destruct (is_dot c && end_or_sep rest); [apply IH; lia|].
    destruct (is_dot c && is_dot (hd Ascii.zero rest) && end_or_sep (tl rest)).
    + destruct (dotdot <? length out)%nat; [by apply IH|].
      destruct (negb rooted); by apply IH.
    + cbv zeta. pose proof (copy_elem_length rest) as Hr.
      simpl copy_elem. rewrite Hc.
      destruct (copy_elem rest) as [e rest']. simpl in Hr. apply IH. lia.
Qed.

Lemma end_or_sep_app (s : seg) (tail : list ascii) :
  s ≠ [] → sepfree s → end_or_sep (s ++ tail) = false.
Proof. intros Hne Hs. destruct s as [|c s]; [done|]. by inversion Hs. Qed.

(** A name that is neither [.] nor [..] reaches the default case. *)
Lemma name_not_dot (c : ascii) (s : seg) (tail : list ascii) :
  c :: s ≠ dot → sepfree s → is_dot c && end_or_sep (s ++ tail) = false.
Proof.
  intros Hne Hs. destruct (is_dot c) eqn:Hc; [simpl|done].
  apply Ascii.eqb_eq in Hc. subst c.
  apply end_or_sep_app; [|done]. by intros ->.
Qed.

Lemma name_not_dotdot (c : ascii) (s : seg) (tail : list ascii) :
  c :: s ≠ dotdot → sepfree s → end_or_sep tail = true →
  is_dot c && is_dot (hd Ascii.zero (s ++ tail)) && end_or_sep (tl (s ++ tail)) = false.
Proof.
  intros Hne Hs Ht. destruct (is_dot c) eqn:Hc; [simpl|done].
  apply Ascii.eqb_eq in Hc. subst c.
  destruct s as [|c' s]; simpl.
  - destruct tail as [|t tail]; [done|]. simpl in Ht.
    apply Ascii.eqb_eq in Ht. by subst t.
  - destruct (is_dot c') eqn:Hc'; [simpl|done].
    apply Ascii.eqb_eq in Hc'. subst c'. inversion Hs; subst.
    apply end_or_sep_app; [|done]. by intros ->.
Qed.

End CleanLoop.

Section CleanRefines.

Lemma dd_0 : dd 0 = 0%nat.
Proof. reflexivity. Qed.

(** One round of the loop on a non-empty component is one step of the
    walk. *)
Lemma clean_loop_elem (s : seg) (tail : list ascii) fuel ups stack :
  s ≠ [] → sepfree s → end_or_sep tail = true → Forall real_elem stack →
  clean_loop (S fuel) false (s ++ tail) (render (ups, stack)) (dd ups)
  = clean_loop fuel false tail (render (step (ups, stack) s))
      (dd (step (ups, stack) s).1).
Proof.
  intros Hne Hs Ht Hst.
  destruct s as [|c s]; [done|]. inversion Hs as [|? ? Hc Hs']; subst.
  change ((c :: s) ++ tail) with (c :: (s ++ tail)).
  rewrite clean_loop_unfold, Hc.
  destruct (decide (c :: s = dot)) as [E|Hnd].
  { injection E as -> ->. simpl app. change (is_dot ".") with true.
    rewrite Ht. simpl. unfold step. by rewrite decide_True by (by right). }
  rewrite name_not_dot by done.
  destruct (decide (c :: s = dotdot)) as [E|Hndd].
  - injection E as -> ->. simpl app. simpl hd. simpl tl.
    change (is_dot ".") with true. rewrite Ht. simpl andb. cbv iota.
    unfold step. rewrite decide_False by (intros [?|?]; done).
    rewrite decide_True by done. simpl fst. simpl snd.
    destruct stack as [|x stack].
    + (* nothing to pop: keep a leading [..] *)
      rewrite dd_render, Nat.ltb_irrefl. simpl negb. cbv iota zeta.
      cbn [fst snd]. rewrite (dd_render (S ups)), render_up.
      destruct (decide (ups = 0%nat)) as [->|Hups]; [done|].
      assert (render (ups, []) ≠ []) as Hr.
      { rewrite render_nil by done. intros [? _]. done. }
      assert ((0 <? length (render (ups, [])))%nat = true) as ->.
      { apply Nat.ltb_lt. destruct (render (ups, [])); [done | simpl; lia]. }
      by rewrite <- !app_assoc.
    + (* pop the innermost name *)
      inversion Hst as [|? ? [Hx Hxs] Hst']; subst.
      cbn [fst snd]. rewrite render_push.
      destruct (decide (ups = 0%nat ∧ stack = [])) as [[-> ->]|Hpre].
      * rewrite dd_0.
        assert ((0 <? length x)%nat = true) as ->.
        { apply Nat.ltb_lt. destruct x; [done | simpl; lia]. }
        cbv zeta. rewrite backtrack_to_start; [done | done |].
        destruct x; [done | simpl; lia].
      * pose proof (render_length_ge ups stack) as Hge.
        assert ((dd ups <? length (render (ups, stack) ++ Separator :: x))%nat = true) as ->.
        { apply Nat.ltb_lt. rewrite length_app. simpl. lia. }
        cbv zeta.
        replace (length (render (ups, stack) ++ Separator :: x) - 1)%nat
          with (length (render (ups, stack)) + length x)%nat
          by (rewrite length_app; simpl; lia).
        rewrite backtrack_after_sep by (done || lia).
        by rewrite take_app_length.
  - (* a name *)
    rewrite name_not_dotdot by done.
    change (c :: s ++ tail) with ((c :: s) ++ tail).
    rewrite copy_elem_app by done.
    unfold step. rewrite decide_False by (intros [?|?]; done).
    rewrite decide_False by done. simpl fst. simpl snd.
    rewrite render_push. simpl andb. simpl orb.
    destruct (decide (ups = 0%nat ∧ stack = [])) as [[-> ->]|Hpre]; [done|].
    assert (render (ups, stack) ≠ []) as Hr by (by rewrite render_nil).
    assert ((length (render (ups, stack)) =? 0)%nat = false) as ->.
    { apply Nat.eqb_neq. destruct (render (ups, stack)); [done | simpl; lia]. }
    simpl. by rewrite <- app_assoc.
Qed.

Lemma step_real_elem (st : nat * list seg) (s : seg) :
  sepfree s → Forall real_elem st.2 → Forall real_elem (step st s).2.
Proof.
  intros Hs Hst. unfold step.
  destruct (decide (s = [] ∨ s = dot)) as [|Hn]; [done|].
  destruct (decide (s = dotdot)).
  - destruct st as [ups [|x stack]]; simpl in *; [done|]. by inversion Hst.
  - simpl. constructor; [|done]. split; [|done]. intros ->. apply Hn. by left.
Qed.

(** The loop, run on a relative path given by its components, leaves the
    rendering of the walk's final state in the buffer. *)
Lemma clean_loop_walk (segs : list seg) :
  Forall sepfree segs →
  ∀ fuel st, Forall real_elem st.2 → (length (join_sep segs) ≤ fuel)%nat →
    clean_loop fuel false (join_sep segs) (render st) (dd st.1)
    = render (foldl step st segs).
Proof.
  induction 1 as [|s segs Hs Hsegs IH]; intros fuel st Hst Hfuel.
  - simpl. apply clean_loop_nil.
  - assert (Hstep : Forall real_elem (step st s).2) by by apply step_real_elem.
    destruct st as [ups stack]. simpl foldl.
    destruct segs as [|s' segs].
    + (* the last component *)
      simpl join_sep in *. simpl foldl.
      destruct (decide (s = [])) as [->|Hne].
      { rewrite clean_loop_nil. unfold step. by rewrite decide_True by (by left). }
      destruct fuel as [|fuel]; [destruct s; [done | simpl in Hfuel; lia]|].
      rewrite <- (app_nil_r s) at 1.
      rewrite clean_loop_elem by done. apply clean_loop_nil.
    + rewrite join_sep_cons in * by done.
      rewrite length_app in Hfuel. cbn [length] in Hfuel.
      destruct (decide (s = [])) as [->|Hne].
      { destruct fuel as [|fuel]; [lia|]. cbn [app].
        rewrite clean_loop_sep.
        assert (step (ups, stack) [] = (ups, stack)) as ->
          by (unfold step; by rewrite decide_True by (by left)).
        apply (IH fuel (ups, stack)); [done | cbn [length] in Hfuel; lia]. }
      assert (Hlen : (0 < length s)%nat) by (destruct s; [done | simpl; lia]).
      destruct fuel as [|fuel]; [lia|].
      rewrite clean_loop_elem by done.
      destruct fuel as [|fuel]; [lia|].
      rewrite clean_loop_sep.
      rewrite <- surjective_pairing.
      apply IH; [done | lia].
Qed.

End CleanRefines.

Section ValidatePath.

Lemma bytes_of_bytes (l : list ascii) : bytes (of_bytes l) = l.
Proof. apply String.list_ascii_of_string_of_list_ascii. Qed.

Lemma of_bytes_bytes (s : string) : of_bytes (bytes s) = s.
Proof. apply String.string_of_list_ascii_of_string. Qed.

Lemma bytes_nil (s : string) : bytes s = [] → s = "".
Proof. by destruct s. Qed.

Lemma clean_relative (c : ascii) (rest : list ascii) :
  IsPathSeparator c = false →
  clean (c :: rest)
  = if (length (render (walk (c :: rest))) =? 0)%nat then dot
    else render (walk (c :: rest)).
Proof.
  intros Hc. unfold clean. rewrite Hc.
  pose proof (clean_loop_walk (segments (c :: rest)) (segments_sepfree _)
                (length (c :: rest)) (0%nat, [])) as H.
  rewrite join_segments in H.
  change (render (0%nat, [])) with (@nil ascii) in H.
  change (dd (0%nat, []).1) with 0%nat in H.
  rewrite H by done. done.
Qed.

Lemma has_prefix_sep_app (out l : list ascii) :
  has_prefix out [Separator] = true → has_prefix (out ++ l) [Separator] = true.
Proof. destruct out; simpl; done. Qed.

Lemma has_prefix_sep_take (out : list ascii) (w : nat) :
  (1 ≤ w)%nat → has_prefix out [Separator] = true →
  has_prefix (take w out) [Separator] = true.
Proof. intros Hw. destruct out, w; simpl; done || lia. Qed.

(** On a rooted path the buffer keeps its leading separator. *)
Lemma clean_loop_rooted (fuel : nat) :
  ∀ path out, has_prefix out [Separator] = true →
    has_prefix (clean_loop fuel true path out 1) [Separator] = true.
Proof.
  induction fuel as [|fuel IH]; intros path out Hout; [done|].
  destruct path as [|c rest]; [done|]. rewrite clean_loop_unfold.
  destruct (IsPathSeparator c); [by apply IH|].
  destruct (is_dot c && end_or_sep rest); [by apply IH|].
  destruct (is_dot c && is_dot (hd Ascii.zero rest) && end_or_sep (tl rest)).
  - destruct (1 <? length out)%nat eqn:Hlen; [|by apply IH].
    apply Nat.ltb_lt in Hlen. apply IH, has_prefix_sep_take; [|done].
    apply backtrack_ge. lia.
  - cbv zeta. destruct (copy_elem (c :: rest)) as [e rest'].
    apply IH. destruct (_ || _); [rewrite <- app_assoc|]; by apply has_prefix_sep_app.
Qed.

Lemma validatePath_absolute (p : string) :
  IsAbs p = true → validatePath p = Some "absolute paths are not allowed".
Proof.
  intros Habs. unfold validatePath.
  destruct (decide (p = "")) as [->|_]; [done|].
  unfold IsAbs, HasPrefix, Clean in *. rewrite bytes_of_bytes.
  destruct (bytes p) as [|c rest]; [done|].
  change (bytes "/") with [Separator] in *.
  assert (Hc : IsPathSeparator c = true).
  { simpl in Habs. by apply andb_true_iff in Habs as [? _]. }
  unfold clean. rewrite Hc.
  pose proof (clean_loop_rooted (length (c :: rest)) rest [Separator] eq_refl) as H.
  destruct (clean_loop _ true rest [Separator] 1) as [|x out]; [done|].
  simpl length. simpl Nat.eqb. cbv iota. by rewrite H.
Qed.

(** The traversal test of [validatePath] on a joined list of components
    asks whether some component begins with two dots. *)
Lemma has_prefix_dotdot_app (a rest : list ascii) :
  has_prefix (a ++ Separator :: rest) dotdot = has_prefix a dotdot.
Proof.
  destruct a as [|c [|c' a]]; simpl; [done | | done].
  by rewrite !andb_false_r.
Qed.

Lemma contains_sepfree (a : seg) :
  sepfree a → contains a (Separator :: dotdot) = false.
Proof.
  induction 1 as [|c a Hc _ IH]; [done|].
  simpl. fold (IsPathSeparator c). by rewrite Hc, IH.
Qed.

Lemma contains_sepfree_app (a : seg) (rest : list ascii) :
  sepfree a →
  contains (a ++ Separator :: rest) (Separator :: dotdot)
  = has_prefix rest dotdot || contains rest (Separator :: dotdot).
Proof.
  induction 1 as [|c a Hc _ IH]; [done|].
  simpl app. simpl contains at 1. cbn [has_prefix].
  fold (IsPathSeparator c). by rewrite Hc, IH.
Qed.

Lemma traversal_test (l : list seg) :
  Forall sepfree l →
  has_prefix (join_sep l) dotdot || contains (join_sep l) (Separator :: dotdot)
  = existsb (λ s, has_prefix s dotdot) l.
Proof.
  induction 1 as [|a l Ha Hl IH]; [done|].
  destruct l as [|b l].
  - simpl. by rewrite contains_sepfree, !orb_false_r.
  - rewrite join_sep_cons by done.
    rewrite has_prefix_dotdot_app, contains_sepfree_app by done.
    by rewrite IH.
Qed.

Lemma join_sep_relative (l : list seg) :
  Forall real_elem l → has_prefix (join_sep l) [Separator] = false.
Proof.
  destruct 1 as [|a l [Hne Ha] _]; [done|].
  destruct a as [|c a]; [done|]. inversion Ha as [|? ? Hc _]; subst.
  destruct l; simpl; fold (IsPathSeparator c); by rewrite Hc.
Qed.

End ValidatePath.

Section ValidatePathWalk.

Lemma foldl_step_stack (P : seg → Prop) (segs : list seg) :
  (∀ s, s ∈ segs → is_name s → P s) →
  ∀ st, Forall P st.2 → Forall P (foldl step st segs).2.
Proof.
  induction segs as [|s segs IH]; intros HP st Hst; [done|].
  simpl. apply IH.
  - intros s' Hin. apply HP. by right.
  - unfold step. destruct (decide (s = [] ∨ s = dot)) as [|Hn]; [done|].
    destruct (decide (s = dotdot)).
    + destruct st as [ups [|x stack]]; simpl in *; [done|]. by inversion Hst.
    + simpl. constructor; [|done]. apply HP; [by left|].
      split_and!; [intros ->; apply Hn; by left | intros ->; apply Hn; by right | done].
Qed.

(** The walk keeps a leading [..] exactly when the path climbs above its
    starting directory. *)
Lemma foldl_step_ups (segs : list seg) :
  ∀ st, (foldl step st segs).1 = 0%nat
        ↔ st.1 = 0%nat ∧ climbs (length st.2) segs = false.
Proof.
  induction segs as [|s segs IH]; intros [ups stack]; simpl foldl.
  - simpl. tauto.
  - rewrite IH. unfold step. cbn [climbs].
    destruct (decide (s = [] ∨ s = dot)); [done|].
    destruct (decide (s = dotdot)); [|done].
    destruct stack as [|x stack]; cbn [fst snd length]; [|done].
    split; intros [? ?]; done.
Qed.

Lemma climbs_no_dotdot (segs : list seg) :
  (∀ s, s ∈ segs → s ≠ dotdot) → ∀ d, climbs d segs = false.
Proof.
  induction segs as [|s segs IH]; intros Hs d; [done|]. cbn [climbs].
  assert (∀ s', s' ∈ segs → s' ≠ dotdot) by (intros; apply Hs; by right).
  destruct (decide (s = [] ∨ s = dot)); [by apply IH|].
  rewrite decide_False by (apply Hs; by left). by apply IH.
Qed.

Lemma walk_real_elem (p : list ascii) : Forall real_elem (walk p).2.
Proof.
  apply (foldl_step_stack real_elem); [|done].
  intros s Hin [Hne _]. split; [done|].
  pose proof (segments_sepfree p) as H. rewrite Forall_forall in H. by apply H.
Qed.

(** What [validatePath] decides on a relative path, in terms of the walk:
    it accepts when no leading [..] is kept and no kept name begins with
    two dots. *)
Lemma validatePath_relative (p : string) :
  IsAbs p = false →
  validatePath p = None
  ↔ (walk (bytes p)).1 = 0%nat
    ∧ Forall (λ s, has_prefix s dotdot = false) (walk (bytes p)).2.
Proof.
  intros Hrel. unfold validatePath.
  destruct (decide (p = "")) as [->|Hp].
  { split; [intros _|done]. split; [done | constructor]. }
  unfold IsAbs, HasPrefix, Contains, Clean in *. rewrite !bytes_of_bytes.
  change (bytes "..") with dotdot.
  change (bytes (String Separator "" +:+ "..")) with (Separator :: dotdot).
  change (bytes "/") with [Separator] in *.
  destruct (bytes p) as [|c rest] eqn:Hb; [by apply bytes_nil in Hb|].
  assert (Hc : IsPathSeparator c = false).
  { simpl in Hrel. by rewrite andb_true_r in Hrel. }
  rewrite clean_relative by done.
  pose proof (walk_real_elem (c :: rest)) as Hst.
  destruct (walk (c :: rest)) as [ups stack] eqn:Hw. cbn [fst snd] in *.
  destruct (length (render (ups, stack)) =? 0)%nat eqn:Hlen.
  - apply Nat.eqb_eq, length_zero_iff_nil in Hlen.
    apply render_nil in Hlen as [-> ->]; [|done].
    split; [intros _|done]. split; [done | constructor].
  - assert (Hall : Forall real_elem (replicate ups dotdot ++ reverse stack)).
    { apply Forall_app. split; [|by apply Forall_reverse].
      apply Forall_replicate. split; [done | apply dotdot_sepfree]. }
    unfold render. cbn [fst snd].
    rewrite join_sep_relative by done.
    rewrite traversal_test by (eapply Forall_impl; [exact Hall|]; by intros ? [_ ?]).
    rewrite existsb_app. set (begins := λ s : seg, has_prefix s dotdot).
    destruct ups as [|ups].
    + simpl replicate. simpl existsb at 1. simpl orb.
      destruct (existsb begins (reverse stack)) eqn:Hex.
      * split; [done|]. intros [_ Hf].
        apply existsb_exists in Hex as (s & Hin & Hs). unfold begins in Hs.
        rewrite Forall_forall in Hf.
        rewrite (Hf s) in Hs; [done|].
        apply list_elem_of_In in Hin. by rewrite elem_of_reverse in Hin.
      * split; [intros _|done]. split; [done|].
        apply Forall_forall. intros s Hin.
        destruct (has_prefix s dotdot) eqn:Hs; [|done].
        assert (existsb begins (reverse stack) = true) as Hex'.
        { apply existsb_exists. exists s. split; [|done].
          by apply list_elem_of_In, elem_of_reverse. }
        congruence.
    + simpl. split; [done | intros [? _]; done].
Qed.

End ValidatePathWalk.

(** C1 (as stated, refuted).  Not every path with a [..] component is
    rejected: [a/../b] has the component [..] and is accepted, because the
    validator tests the cleaned path [b]. *)
Lemma validatePath_accepts_inner_dotdot :
  dotdot ∈ segments (bytes "a/../b") ∧ validatePath "a/../b" = None.
Proof.
  split.
  - apply list_elem_of_In. vm_compute. right; left; reflexivity.
  - vm_compute. reflexivity.
Qed.

(** A relative path without any [..] component can still be rejected: the
    traversal test looks at the first two bytes of a component, so a name
    such as [..foo] fails it. *)
Lemma validatePath_rejects_dotted_name :
  IsAbs "..foo" = false
  ∧ (dotdot ∉ segments (bytes "..foo"))
  ∧ validatePath "..foo"
    = Some "path traversal detected: cannot use '..' to escape working directory".
Proof.
  split_and!; [reflexivity | | vm_compute; reflexivity].
  rewrite list_elem_of_In. vm_compute. intros [H|[]]. discriminate H.
Qed.

(** C1 (amended).  [validatePath] rejects every absolute path and every
    relative path that lexically climbs above its starting directory (a
    [..] component met at depth 0).  A relative path that does not climb,
    and in which no component other than [..] itself begins with two dots,
    is accepted, so [a/../b] passes; in particular every relative path
    none of whose components begins with [..] is accepted, the empty path
    and [.] among them. *)
Theorem validatePath_lexical_escape (p : string) :
  (IsAbs p = true → validatePath p ≠ None)
  ∧ (IsAbs p = false → climbs 0 (segments (bytes p)) = true → validatePath p ≠ None)
  ∧ (IsAbs p = false → climbs 0 (segments (bytes p)) = false →
     (∀ s, s ∈ segments (bytes p) → has_prefix s dotdot = true → s = dotdot) →
     validatePath p = None)
  ∧ (IsAbs p = false →
     (∀ s, s ∈ segments (bytes p) → has_prefix s dotdot = false) →
     validatePath p = None).
Proof.
  assert (Hclimb : IsAbs p = false → climbs 0 (segments (bytes p)) = false →
     (∀ s, s ∈ segments (bytes p) → has_prefix s dotdot = true → s = dotdot) →
     validatePath p = None).
  { intros Hrel Hc Hseg. apply validatePath_relative; [done|]. split.
    - by apply (foldl_step_ups (segments (bytes p)) (0%nat, [])).
    - apply (foldl_step_stack (λ s, has_prefix s dotdot = false)); [|done].
      intros s Hin (_ & _ & Hs).
      destruct (has_prefix s dotdot) eqn:Hpre; [|done]. by apply Hseg in Hpre. }
  split_and!; [| |done|].
  - intros Habs. by rewrite validatePath_absolute.
  - intros Hrel Hc Hnone. apply validatePath_relative in Hnone as [Hups _]; [|done].
    apply (foldl_step_ups (segments (bytes p)) (0%nat, [])) in Hups as [_ Hups].
    simpl in Hups. congruence.
  - intros Hrel Hseg. apply Hclimb; [done | |].
    + apply climbs_no_dotdot. intros s Hin ->. by apply Hseg in Hin.
    + intros s Hin Hs. rewrite Hseg in Hs; done.
Qed.

Lemma validatePath_lexical_escape_witness :
  validatePath "a/../b" = None
  ∧ validatePath "" = None
  ∧ validatePath "." = None
  ∧ validatePath "packages/../../secret" ≠ None
  ∧ validatePath "/etc/passwd" ≠ None.
Proof.
  split_and!.
  - destruct (validatePath_lexical_escape "a/../b") as (_ & _ & H & _).
    apply H; [reflexivity | reflexivity |].
    intros s Hin. apply list_elem_of_In in Hin. vm_compute in Hin.
    destruct Hin as [<-|[<-|[<-|[]]]]; [discriminate | reflexivity | discriminate].
  - destruct (validatePath_lexical_escape "") as (_ & _ & _ & H).
    apply H; [reflexivity|].
    intros s Hin. apply list_elem_of_In in Hin. vm_compute in Hin.
    destruct Hin as [<-|[]]. reflexivity.
  - destruct (validatePath_lexical_escape ".") as (_ & _ & _ & H).
    apply H; [reflexivity|].
    intros s Hin. apply list_elem_of_In in Hin. vm_compute in Hin.
    destruct Hin as [<-|[]]. reflexivity.
  - destruct (validatePath_lexical_escape "packages/../../secret") as (_ & H & _).
    apply H; reflexivity.
  - destruct (validatePath_lexical_escape "/etc/passwd") as (H & _).
    apply H; reflexivity.
Defined.

(** ** Configuration resolution *)

(** C5.  Each field resolves in the order explicit value, environment
    variable, default: the credential from [api_key], then [HEX_API_KEY],
    then [""]; the organization from [organization], then
    [HEX_ORGANIZATION], then [""]; the working directory from [work_dir],
    then ["."] whatever the environment holds; [replace] defaults to false
    and [yes] to true.  The empty configuration in the empty environment
    gives the defaults, and an explicit [api_key] wins over [HEX_API_KEY]. *)
Theorem parseConfig_resolution_order :
  (∀ (environ : helpers.Environ) (raw : gmap string any),
     let cfg := parseConfig environ raw in
     (∀ v, raw !! "api_key" = Some (VString v) → APIKey cfg = v)
     ∧ ((∀ v, raw !! "api_key" ≠ Some (VString v)) →
        APIKey cfg = default "" (environ !! "HEX_API_KEY"))
     ∧ (∀ v, raw !! "organization" = Some (VString v) → Organization cfg = v)
     ∧ ((∀ v, raw !! "organization" ≠ Some (VString v)) →
        Organization cfg = default "" (environ !! "HEX_ORGANIZATION"))
     ∧ (∀ v, raw !! "work_dir" = Some (VString v) → WorkDir cfg = v)
     ∧ ((∀ v, raw !! "work_dir" ≠ Some (VString v)) → WorkDir cfg = ".")
     ∧ (∀ b, raw !! "replace" = Some (VBool b) → Replace cfg = b)
     ∧ (raw !! "replace" = None → Replace cfg = false)
     ∧ (∀ b, raw !! "yes" = Some (VBool b) → Yes cfg = b)
     ∧ (raw !! "yes" = None → Yes cfg = true))
  ∧ parseConfig ∅ ∅
    = {| APIKey := ""; Organization := ""; Replace := false; Yes := true; WorkDir := "." |}
  ∧ APIKey (parseConfig {["HEX_API_KEY" := "env-key"]} {["api_key" := VString "config-key"]})
    = "config-key".
Proof.
  split_and!; [|reflexivity|reflexivity].
  intros environ raw cfg. subst cfg.
  unfold parseConfig, helpers.GetString, helpers.GetBool. cbn [APIKey Organization Replace Yes WorkDir helpers.raw].
  split_and!.
  - by intros v ->.
  - intros Hn. destruct (raw !! "api_key") as [[v| | |]|] eqn:Hr;
      try (by destruct (environ !! "HEX_API_KEY")). by destruct (Hn v).
  - by intros v ->.
  - intros Hn. destruct (raw !! "organization") as [[v| | |]|] eqn:Hr;
      try (by destruct (environ !! "HEX_ORGANIZATION")). by destruct (Hn v).
  - by intros v ->.
  - intros Hn. destruct (raw !! "work_dir") as [[v| | |]|] eqn:Hr; try done.
    by destruct (Hn v).
  - by intros b ->.
  - by intros ->.
  - by intros b ->.
  - by intros ->.
Qed.

Lemma parseConfig_resolution_order_witness :
  APIKey (parseConfig {["HEX_API_KEY" := "env-key-123"]} ∅) = "env-key-123"
  ∧ Organization (parseConfig {["HEX_ORGANIZATION" := "env-org"]} ∅) = "env-org"
  ∧ WorkDir (parseConfig ∅ {["work_dir" := VString "packages/lib"]}) = "packages/lib".
Proof.
  split_and!.
  - destruct parseConfig_resolution_order as [H _].
    destruct (H {["HEX_API_KEY" := "env-key-123"]} ∅) as (_ & Henv & _).
    apply Henv. intros v. by rewrite lookup_empty.
  - destruct parseConfig_resolution_order as [H _].
    destruct (H {["HEX_ORGANIZATION" := "env-org"]} ∅) as (_ & _ & _ & Henv & _).
    apply Henv. intros v. by rewrite lookup_empty.
  - destruct parseConfig_resolution_order as [H _].
    destruct (H ∅ {["work_dir" := VString "packages/lib"]}) as (_ & _ & _ & _ & Hw & _).
    by apply Hw.
Defined.

(** ** Version normalization *)

Section Version.

Lemma TrimPrefix_v_cons (s : string) : TrimPrefix (String "v" s) "v" = s.
Proof.
  unfold TrimPrefix, HasPrefix. simpl. apply of_bytes_bytes.
Qed.

Lemma TrimPrefix_v_bare (s : string) : HasPrefix s "v" = false → TrimPrefix s "v" = s.
Proof. unfold TrimPrefix. by intros ->. Qed.

End Version.

(** ** The publish orchestrator *)

Section Publish.

Context (environ : helpers.Environ) (CombinedOutput : Cmd → RunResult).
Context {E : Type} `{!CommandExecutor E}.

Lemma publish_args_expected (cfg : Config) :
  publish_args cfg = expected_args (Organization cfg) (Replace cfg) (Yes cfg).
Proof.
  unfold publish_args, expected_args.
  destruct (bool_decide (Organization cfg = "")), (Replace cfg), (Yes cfg); reflexivity.
Qed.

(** The recording executor records every run: a plugin left unchanged has
    made none. *)
Lemma mock_Run_records (m : MockCommandExecutor) name args env dir :
  Calls (Run m name args env dir).2
  = Calls m ++ [{| Name := name; Args := args; Env := env; Dir := dir |}].
Proof. unfold Run, MockCommandExecutor_Run. by destruct (RunFunc m). Qed.

Lemma publish_invalid_work_dir (p : HexPlugin E) cfg rc dryRun e :
  validatePath (WorkDir cfg) = Some e →
  publish environ CombinedOutput p cfg rc dryRun
  = (({| plugin.Success := false; plugin.Message := "";
         plugin.Error := "invalid work_dir: " +:+ e;
         plugin.Outputs := None |}, None), p).
Proof. unfold publish. by intros ->. Qed.

Lemma publish_invalid_organization (p : HexPlugin E) cfg rc dryRun e :
  validatePath (WorkDir cfg) = None →
  validateOrganization (Organization cfg) = Some e →
  publish environ CombinedOutput p cfg rc dryRun
  = (({| plugin.Success := false; plugin.Message := "";
         plugin.Error := "invalid organization: " +:+ e;
         plugin.Outputs := None |}, None), p).
Proof. unfold publish. by intros -> ->. Qed.

Lemma publish_dry_run_eq (p : HexPlugin E) cfg rc :
  validatePath (WorkDir cfg) = None →
  validateOrganization (Organization cfg) = None →
  publish environ CombinedOutput p cfg rc true
  = (({| plugin.Success := true;
         plugin.Message := "Would publish package to Hex.pm";
         plugin.Error := "";
         plugin.Outputs := Some
           (<["command" := VString ("mix " +:+ Join (publish_args cfg) " ")]>
            (<["version" := VString (TrimPrefix (plugin.Version rc) "v")]>
             (<["organization" := VString (Organization cfg)]>
              (<["replace" := VBool (Replace cfg)]> ∅)))) |}, None), p).
Proof. unfold publish. by intros -> ->. Qed.

Lemma publish_run_eq (p : HexPlugin E) cfg rc :
  validatePath (WorkDir cfg) = None →
  validateOrganization (Organization cfg) = None →
  APIKey cfg ≠ "" →
  publish environ CombinedOutput p cfg rc false
  = let '((output, err), p') :=
      runExecutor environ CombinedOutput p "mix" (publish_args cfg)
        ["HEX_API_KEY=" +:+ APIKey cfg] (WorkDir cfg) in
    match err with
    | Some e =>
        (({| plugin.Success := false; plugin.Message := "";
             plugin.Error := "mix hex.publish failed: " +:+ e
                             +:+ String "010" "Output: " +:+ output;
             plugin.Outputs := None |}, None), p')
    | None =>
        (({| plugin.Success := true;
             plugin.Message := "Published package v"
                               +:+ TrimPrefix (plugin.Version rc) "v" +:+ " to Hex.pm";
             plugin.Error := "";
             plugin.Outputs := Some
               (<["version" := VString (TrimPrefix (plugin.Version rc) "v")]>
                (<["organization" := VString (Organization cfg)]>
                 (<["output" := VString output]> ∅))) |}, None), p')
    end.
Proof.
  unfold publish. intros -> -> Hkey.
  by rewrite bool_decide_eq_false_2 by done.
Qed.

End Publish.

(** C2.  For every configuration that passes both validators, whatever its
    credential, a dry-run [publish] succeeds, leaves the plugin and its
    executor untouched (no run is recorded), and reports the command text
    ["mix "] followed by the arguments in the fixed order, joined by single
    spaces, with the normalized version.  With organization [my-org],
    [replace] set, [yes] left to its default, no credential and version
    [1.0.0] the command text is
    [mix hex.publish --organization my-org --replace --yes] and the version
    [1.0.0]. *)
Theorem publish_dry_run_preview :
  (∀ (environ : helpers.Environ) (CombinedOutput : Cmd → RunResult)
     (E : Type) (EX : CommandExecutor E) (p : HexPlugin E)
     (cfg : Config) (rc : plugin.ReleaseContext),
     validatePath (WorkDir cfg) = None →
     validateOrganization (Organization cfg) = None →
     ∃ outs,
       publish environ CombinedOutput p cfg rc true
       = (({| plugin.Success := true;
              plugin.Message := "Would publish package to Hex.pm";
              plugin.Error := "";
              plugin.Outputs := Some outs |}, None), p)
       ∧ outs !! "command"
         = Some (VString ("mix " +:+
             Join (expected_args (Organization cfg) (Replace cfg) (Yes cfg)) " "))
       ∧ outs !! "version" = Some (VString (TrimPrefix (plugin.Version rc) "v"))
       ∧ outs !! "organization" = Some (VString (Organization cfg))
       ∧ outs !! "replace" = Some (VBool (Replace cfg)))
  ∧ (∀ (CombinedOutput : Cmd → RunResult) (hook : plugin.Hook) (res : RunResult),
       ∃ outs,
         Execute ∅ CombinedOutput hook (mock_plugin res)
           {| plugin.Hook_ := hook;
              plugin.Config := <["organization" := VString "my-org"]>
                                 {["replace" := VBool true]};
              plugin.Context := release "1.0.0";
              plugin.DryRun := true |}
         = (({| plugin.Success := true;
                plugin.Message := "Would publish package to Hex.pm";
                plugin.Error := "";
                plugin.Outputs := Some outs |}, None), mock_plugin res)
         ∧ outs !! "command"
           = Some (VString "mix hex.publish --organization my-org --replace --yes")
         ∧ outs !! "version" = Some (VString "1.0.0")).
Proof.
  split.
  - intros environ CombinedOutput E EX p cfg rc Hp Ho.
    eexists. split; [by apply publish_dry_run_eq|].
    rewrite publish_args_expected. split_and!; by simplify_map_eq.
  - intros CombinedOutput hook res. unfold Execute.
    rewrite bool_decide_eq_true_2 by done.
    eexists. split; [apply publish_dry_run_eq; vm_compute; reflexivity|].
    split; vm_compute; reflexivity.
Qed.

Lemma publish_dry_run_preview_witness :
  ∃ outs,
    publish ∅ (λ _, ("", None)) (mock_plugin ("", None))
      {| APIKey := ""; Organization := ""; Replace := false; Yes := true;
         WorkDir := "packages/lib" |} (release "v2.0.0") true
    = (({| plugin.Success := true;
           plugin.Message := "Would publish package to Hex.pm";
           plugin.Error := "";
           plugin.Outputs := Some outs |}, None), mock_plugin ("", None))
    ∧ outs !! "command" = Some (VString "mix hex.publish --yes")
    ∧ outs !! "version" = Some (VString "2.0.0")
    ∧ outs !! "organization" = Some (VString "")
    ∧ outs !! "replace" = Some (VBool false).
Proof.
  destruct publish_dry_run_preview as [H _].
  apply (H ∅ (λ _, ("", None)) _ _ (mock_plugin ("", None))
           {| APIKey := ""; Organization := ""; Replace := false; Yes := true;
              WorkDir := "packages/lib" |} (release "v2.0.0"));
    vm_compute; reflexivity.
Defined.

(** C3.  A real (non-dry-run) publish whose configuration passes both
    validators but has an empty credential fails with the fixed error that
    names the missing credential and the two ways to supply it (the
    [api_key] field and the [HEX_API_KEY] environment variable), and leaves
    the plugin and its executor untouched: nothing is run. *)
Theorem publish_missing_credential
    (environ : helpers.Environ) (CombinedOutput : Cmd → RunResult)
    {E : Type} `{!CommandExecutor E} (p : HexPlugin E)
    (cfg : Config) (rc : plugin.ReleaseContext) :
  validatePath (WorkDir cfg) = None →
  validateOrganization (Organization cfg) = None →
  APIKey cfg = "" →
  ∃ msg,
    publish environ CombinedOutput p cfg rc false
    = (({| plugin.Success := false; plugin.Message := "";
           plugin.Error := msg; plugin.Outputs := None |}, None), p)
    ∧ HasPrefix msg "HEX_API_KEY is required" = true
    ∧ Contains msg "api_key in config" = true
    ∧ Contains msg "HEX_API_KEY environment variable" = true.
Proof.
  intros Hp Ho Hk. unfold publish. rewrite Hp, Ho, Hk. simpl.
  eexists. split; [reflexivity|]. split_and!; vm_compute; reflexivity.
Qed.

Lemma publish_missing_credential_witness :
  ∃ msg,
    publish ∅ (λ _, ("", None)) (mock_plugin ("mock output", None))
      {| APIKey := ""; Organization := "my-org"; Replace := false; Yes := true;
         WorkDir := "." |} (release "1.0.0") false
    = (({| plugin.Success := false; plugin.Message := "";
           plugin.Error := msg; plugin.Outputs := None |}, None),
       mock_plugin ("mock output", None))
    ∧ HasPrefix msg "HEX_API_KEY is required" = true
    ∧ Contains msg "api_key in config" = true
    ∧ Contains msg "HEX_API_KEY environment variable" = true.
Proof.
  apply (publish_missing_credential ∅ (λ _, ("", None))
           (mock_plugin ("mock output", None))
           {| APIKey := ""; Organization := "my-org"; Replace := false; Yes := true;
              WorkDir := "." |} (release "1.0.0"));
    vm_compute; reflexivity.
Defined.

(** C6.  Version normalization removes exactly one leading lowercase [v]:
    [v] followed by [s] becomes [s], a version that does not start with [v]
    is left as it is, and a dry run for version [v2.0.0] reports [2.0.0]. *)
Theorem version_normalization :
  (∀ s : string, TrimPrefix ("v" +:+ s) "v" = s)
  ∧ (∀ s : string, HasPrefix s "v" = false → TrimPrefix s "v" = s)
  ∧ TrimPrefix "vv1.0.0" "v" = "v1.0.0"
  ∧ TrimPrefix "V1.0.0" "v" = "V1.0.0"
  ∧ TrimPrefix "1.0.0" "v" = "1.0.0"
  ∧ (∀ (CombinedOutput : Cmd → RunResult) (hook : plugin.Hook) (res : RunResult),
       ∃ outs,
         (Execute ∅ CombinedOutput hook (mock_plugin res)
            {| plugin.Hook_ := hook; plugin.Config := ∅;
               plugin.Context := release "v2.0.0"; plugin.DryRun := true |}).1.1
         = {| plugin.Success := true;
              plugin.Message := "Would publish package to Hex.pm";
              plugin.Error := "";
              plugin.Outputs := Some outs |}
         ∧ outs !! "version" = Some (VString "2.0.0")).
Proof.
  split_and!; try reflexivity.
  - intros s. apply TrimPrefix_v_cons.
  - apply TrimPrefix_v_bare.
  - intros CombinedOutput hook res. unfold Execute.
    rewrite bool_decide_eq_true_2 by done.
    rewrite publish_dry_run_eq by (vm_compute; reflexivity).
    eexists. split; [reflexivity|]. vm_compute. reflexivity.
Qed.

Lemma version_normalization_witness : TrimPrefix "2.0.0-rc.1" "v" = "2.0.0-rc.1".
Proof.
  destruct version_normalization as (_ & H & _). apply H. reflexivity.
Defined.

(** C7.  Whether dry-run or not, a working directory that fails validation
    gives [success=false] with the error ["invalid work_dir: "] followed by
    the validator's reason, and, the working directory being valid, an
    organization that fails validation gives ["invalid organization: "]
    followed by the reason; the plugin and its executor are left untouched.
    The organization [my org; rm -rf /] is refused for its characters and
    the recording executor has no call. *)
Theorem publish_validation_errors :
  (∀ (environ : helpers.Environ) (CombinedOutput : Cmd → RunResult)
     (E : Type) (EX : CommandExecutor E) (p : HexPlugin E)
     (cfg : Config) (rc : plugin.ReleaseContext) (dryRun : bool) (e : string),
     validatePath (WorkDir cfg) = Some e →
     publish environ CombinedOutput p cfg rc dryRun
     = (({| plugin.Success := false; plugin.Message := "";
            plugin.Error := "invalid work_dir: " +:+ e;
            plugin.Outputs := None |}, None), p))
  ∧ (∀ (environ : helpers.Environ) (CombinedOutput : Cmd → RunResult)
       (E : Type) (EX : CommandExecutor E) (p : HexPlugin E)
       (cfg : Config) (rc : plugin.ReleaseContext) (dryRun : bool) (e : string),
       validatePath (WorkDir cfg) = None →
       validateOrganization (Organization cfg) = Some e →
       publish environ CombinedOutput p cfg rc dryRun
       = (({| plugin.Success := false; plugin.Message := "";
              plugin.Error := "invalid organization: " +:+ e;
              plugin.Outputs := None |}, None), p))
  ∧ (∀ (CombinedOutput : Cmd → RunResult) (hook : plugin.Hook) (res : RunResult),
       ∃ p',
         Execute ∅ CombinedOutput hook (mock_plugin res)
           {| plugin.Hook_ := hook;
              plugin.Config := <["api_key" := VString "test-key"]>
                                 {["organization" := VString "my org; rm -rf /"]};
              plugin.Context := release "1.0.0";
              plugin.DryRun := false |}
         = (({| plugin.Success := false; plugin.Message := "";
                plugin.Error := "invalid organization: organization name contains invalid characters: only alphanumeric, hyphens, and underscores are allowed";
                plugin.Outputs := None |}, None), p')
         ∧ Calls <$> executor p' = Some []).
Proof.
  split_and!.
  - intros. by apply publish_invalid_work_dir.
  - intros. by apply publish_invalid_organization.
  - intros CombinedOutput hook res. unfold Execute.
    rewrite bool_decide_eq_true_2 by done.
    eexists.
    split; [apply publish_invalid_organization; vm_compute; reflexivity | reflexivity].
Qed.

Lemma publish_validation_errors_witness :
  publish ∅ (λ _, ("", None)) (mock_plugin ("mock output", None))
    {| APIKey := "test-key"; Organization := ""; Replace := false; Yes := true;
       WorkDir := "../../../etc" |} (release "1.0.0") false
  = (({| plugin.Success := false; plugin.Message := "";
         plugin.Error := "invalid work_dir: path traversal detected: cannot use '..' to escape working directory";
         plugin.Outputs := None |}, None), mock_plugin ("mock output", None)).
Proof.
  destruct publish_validation_errors as (H & _).
  apply (H ∅ (λ _, ("", None)) _ _ (mock_plugin ("mock output", None))
           {| APIKey := "test-key"; Organization := ""; Replace := false;
              Yes := true; WorkDir := "../../../etc" |} (release "1.0.0") false).
  vm_compute. reflexivity.
Defined.

(** C8.  When the executor is run (valid configuration, credential present,
    not a dry run), it is run once as [mix] with the built arguments, the
    credential in the environment and the working directory, and the
    response follows its outcome: on no error, [success=true], the message
    ["Published package v<version> to Hex.pm"] and outputs with the version,
    the organization and the raw output; on an error, [success=false] and an
    error text holding the failure and the captured output.  So success
    holds exactly when the run returned no error. *)
Theorem publish_follows_executor :
  (∀ (environ : helpers.Environ) (CombinedOutput : Cmd → RunResult)
     (E : Type) (EX : CommandExecutor E) (p p' : HexPlugin E)
     (cfg : Config) (rc : plugin.ReleaseContext) (output : string) (err : error),
     validatePath (WorkDir cfg) = None →
     validateOrganization (Organization cfg) = None →
     APIKey cfg ≠ "" →
     runExecutor environ CombinedOutput p "mix"
       (expected_args (Organization cfg) (Replace cfg) (Yes cfg))
       ["HEX_API_KEY=" +:+ APIKey cfg] (WorkDir cfg) = ((output, err), p') →
     ∃ r,
       publish environ CombinedOutput p cfg rc false = ((r, None), p')
       ∧ (plugin.Success r = true ↔ err = None)
       ∧ (err = None →
          plugin.Message r
          = "Published package v" +:+ TrimPrefix (plugin.Version rc) "v" +:+ " to Hex.pm"
          ∧ ∃ outs, plugin.Outputs r = Some outs
              ∧ outs !! "version" = Some (VString (TrimPrefix (plugin.Version rc) "v"))
              ∧ outs !! "organization" = Some (VString (Organization cfg))
              ∧ outs !! "output" = Some (VString output))
       ∧ (∀ e, err = Some e →
          plugin.Error r
          = "mix hex.publish failed: " +:+ e +:+ String "010" "Output: " +:+ output))
  ∧ (∀ (CombinedOutput : Cmd → RunResult) (hook : plugin.Hook),
       ∃ r p' outs,
         Execute ∅ CombinedOutput hook (mock_plugin ("Published v1.0.0", None))
           {| plugin.Hook_ := hook;
              plugin.Config := {["api_key" := VString "test-key"]};
              plugin.Context := release "1.0.0";
              plugin.DryRun := false |}
         = ((r, None), p')
         ∧ plugin.Success r = true
         ∧ plugin.Message r = "Published package v1.0.0 to Hex.pm"
         ∧ plugin.Outputs r = Some outs
         ∧ outs !! "output" = Some (VString "Published v1.0.0")
         ∧ Calls <$> executor p'
           = Some [{| Name := "mix"; Args := ["hex.publish"; "--yes"];
                      Env := ["HEX_API_KEY=test-key"]; Dir := "." |}])
  ∧ (∀ (CombinedOutput : Cmd → RunResult) (hook : plugin.Hook),
       ∃ r p',
         Execute ∅ CombinedOutput hook
           (mock_plugin ("** (Mix) not authorized", Some "exit status 1"))
           {| plugin.Hook_ := hook;
              plugin.Config := {["api_key" := VString "test-key"]};
              plugin.Context := release "1.0.0";
              plugin.DryRun := false |}
         = ((r, None), p')
         ∧ plugin.Success r = false
         ∧ plugin.Error r
           = "mix hex.publish failed: exit status 1" +:+ String "010" ""
             +:+ "Output: ** (Mix) not authorized").
Proof.
  split_and!.
  - intros environ CombinedOutput E EX p p' cfg rc output err Hp Ho Hk Hrun.
    rewrite <- publish_args_expected in Hrun.
    rewrite (publish_run_eq environ CombinedOutput p cfg rc Hp Ho Hk), Hrun.
    destruct err as [e|].
    + eexists. split; [reflexivity|]. simpl. split_and!; try done.
      by intros ? [= ->].
    + eexists. split; [reflexivity|]. simpl. split_and!; try done.
      intros _. split; [done|]. eexists. split; [done|].
      split_and!; by simplify_map_eq.
  - intros CombinedOutput hook. unfold Execute.
    rewrite bool_decide_eq_true_2 by done.
    do 3 eexists. split_and!; vm_compute; reflexivity.
  - intros CombinedOutput hook. unfold Execute.
    rewrite bool_decide_eq_true_2 by done.
    do 2 eexists. split_and!; vm_compute; reflexivity.
Qed.

Lemma publish_follows_executor_witness :
  ∃ r,
    publish ∅ (λ _, ("", None)) (mock_plugin ("Published v3.1.4", None))
      {| APIKey := "secret"; Organization := "my-org"; Replace := true; Yes := false;
         WorkDir := "packages/lib" |} (release "v3.1.4") false
    = ((r, None),
       {| executor := Some
            {| RunFunc := Some (λ _ _ _ _, ("Published v3.1.4", None));
               Calls := [{| Name := "mix";
                            Args := ["hex.publish"; "--organization"; "my-org"; "--replace"];
                            Env := ["HEX_API_KEY=secret"];
                            Dir := "packages/lib" |}] |} |})
    ∧ plugin.Success r = true
    ∧ plugin.Message r = "Published package v3.1.4 to Hex.pm".
Proof.
  destruct publish_follows_executor as (H & _).
  destruct (H ∅ (λ _, ("", None)) _ _ (mock_plugin ("Published v3.1.4", None))
    {| executor := Some
         {| RunFunc := Some (λ _ _ _ _, ("Published v3.1.4", None));
            Calls := [{| Name := "mix";
                         Args := ["hex.publish"; "--organization"; "my-org"; "--replace"];
                         Env := ["HEX_API_KEY=secret"];
                         Dir := "packages/lib" |}] |} |}
    {| APIKey := "secret"; Organization := "my-org"; Replace := true; Yes := false;
       WorkDir := "packages/lib" |} (release "v3.1.4") "Published v3.1.4" None)
    as (r & Hr & Hs & Hm & _).
  - vm_compute. reflexivity.
  - vm_compute. reflexivity.
  - discriminate.
  - vm_compute. reflexivity.
  - exists r. split; [exact Hr|]. split; [by apply Hs|]. by apply Hm.
Defined.

(** C9.  For a hook other than the post-publish hook, [Execute] answers
    [success=true] with the message ["Hook <hook-name> not handled"]
    whatever the configuration, the release context and the dry-run flag,
    without validating anything and without touching the executor. *)
Theorem Execute_unhandled_hook
    (environ : helpers.Environ) (CombinedOutput : Cmd → RunResult)
    (HookPostPublish : plugin.Hook)
    {E : Type} `{!CommandExecutor E} (p : HexPlugin E) (req : plugin.ExecuteRequest) :
  plugin.Hook_ req ≠ HookPostPublish →
  Execute environ CombinedOutput HookPostPublish p req
  = (({| plugin.Success := true;
         plugin.Message := "Hook " +:+ plugin.Hook_ req +:+ " not handled";
         plugin.Error := "";
         plugin.Outputs := None |}, None), p).
Proof.
  intros Hne. unfold Execute. by rewrite bool_decide_eq_false_2 by done.
Qed.

Lemma Execute_unhandled_hook_witness :
  Execute ∅ (λ _, ("", None)) "post-publish" (mock_plugin ("mock output", None))
    {| plugin.Hook_ := "pre-publish";
       plugin.Config := <["work_dir" := VString "/etc"]>
                          {["organization" := VString "my org; rm -rf /"]};
       plugin.Context := release "v1.0.0";
       plugin.DryRun := false |}
  = (({| plugin.Success := true;
         plugin.Message := "Hook pre-publish not handled";
         plugin.Error := "";
         plugin.Outputs := None |}, None), mock_plugin ("mock output", None)).
Proof.
  apply (Execute_unhandled_hook ∅ (λ _, ("", None)) "post-publish"
           (mock_plugin ("mock output", None))
           {| plugin.Hook_ := "pre-publish";
              plugin.Config := <["work_dir" := VString "/etc"]>
                                 {["organization" := VString "my org; rm -rf /"]};
              plugin.Context := release "v1.0.0";
              plugin.DryRun := false |}).
  discriminate.
Defined.

Section DryRunCredential.

Context (CombinedOutput : Cmd → RunResult) {E : Type} `{!CommandExecutor E}.

(** A dry run reads every field of the configuration but the credential. *)
Lemma publish_dry_run_credential (env1 env2 : helpers.Environ) (p : HexPlugin E)
    (cfg1 cfg2 : Config) (rc : plugin.ReleaseContext) :
  Organization cfg1 = Organization cfg2 →
  Replace cfg1 = Replace cfg2 →
  Yes cfg1 = Yes cfg2 →
  WorkDir cfg1 = WorkDir cfg2 →
  publish env1 CombinedOutput p cfg1 rc true = publish env2 CombinedOutput p cfg2 rc true.
Proof.
  intros Ho Hr Hy Hw. unfold publish, publish_args. by rewrite Ho, Hr, Hy, Hw.
Qed.

Lemma parseConfig_credential (env1 env2 : helpers.Environ) (raw1 raw2 : gmap string any) :
  (∀ k, k ≠ "api_key" → raw1 !! k = raw2 !! k) →
  (∀ k, k ≠ "HEX_API_KEY" → env1 !! k = env2 !! k) →
  Organization (parseConfig env1 raw1) = Organization (parseConfig env2 raw2)
  ∧ Replace (parseConfig env1 raw1) = Replace (parseConfig env2 raw2)
  ∧ Yes (parseConfig env1 raw1) = Yes (parseConfig env2 raw2)
  ∧ WorkDir (parseConfig env1 raw1) = WorkDir (parseConfig env2 raw2).
Proof.
  intros Hraw Henv.
  unfold parseConfig, helpers.GetString, helpers.GetBool.
  cbn [Organization Replace Yes WorkDir helpers.raw].
  rewrite (Hraw "organization"), (Hraw "replace"), (Hraw "yes"), (Hraw "work_dir") by done.
  by rewrite (Henv "HEX_ORGANIZATION") by done.
Qed.

End DryRunCredential.

(** C10.  The response of a dry run does not depend on the credential: two
    post-publish dry-run requests with the same release context, whose raw
    configurations agree on every key but [api_key], executed in
    environments that agree on every variable but [HEX_API_KEY], get the
    same response (and leave the plugin in the same state). *)
Theorem Execute_dry_run_credential_independent
    (env1 env2 : helpers.Environ) (CombinedOutput : Cmd → RunResult)
    (HookPostPublish : plugin.Hook)
    {E : Type} `{!CommandExecutor E} (p : HexPlugin E)
    (req1 req2 : plugin.ExecuteRequest) :
  plugin.Hook_ req1 = HookPostPublish →
  plugin.Hook_ req2 = HookPostPublish →
  plugin.DryRun req1 = true →
  plugin.DryRun req2 = true →
  plugin.Context req1 = plugin.Context req2 →
  (∀ k, k ≠ "api_key" → plugin.Config req1 !! k = plugin.Config req2 !! k) →
  (∀ k, k ≠ "HEX_API_KEY" → env1 !! k = env2 !! k) →
  Execute env1 CombinedOutput HookPostPublish p req1
  = Execute env2 CombinedOutput HookPostPublish p req2.
Proof.
  intros Hh1 Hh2 Hd1 Hd2 Hc Hraw Henv. unfold Execute.
  rewrite !bool_decide_eq_true_2 by done. rewrite Hd1, Hd2, Hc.
  destruct (parseConfig_credential env1 env2 _ _ Hraw Henv) as (Ho & Hr & Hy & Hw).
  by apply publish_dry_run_credential.
Qed.

Lemma Execute_dry_run_credential_independent_witness :
  Execute {["HEX_API_KEY" := "env-key-1"]} (λ _, ("", None)) "post-publish"
    (mock_plugin ("mock output", None))
    {| plugin.Hook_ := "post-publish";
       plugin.Config := <["api_key" := VString "first-key"]>
                          {["organization" := VString "my-org"]};
       plugin.Context := release "v1.2.3";
       plugin.DryRun := true |}
  = Execute ∅ (λ _, ("", None)) "post-publish"
      (mock_plugin ("mock output", None))
      {| plugin.Hook_ := "post-publish";
         plugin.Config := {["organization" := VString "my-org"]};
         plugin.Context := release "v1.2.3";
         plugin.DryRun := true |}.
Proof.
  apply Execute_dry_run_credential_independent; try reflexivity.
  - intros k Hk. simpl. by rewrite lookup_insert_ne.
  - intros k Hk. by rewrite lookup_singleton_ne, lookup_empty.
Defined.

(** * Further properties of the code *)

(** ** The validators' errors *)

Section ValidatorErrors.

Lemma org_runes_check_cases (rs : list rune) :
  org_runes_check rs = None
  ∨ org_runes_check rs
    = Some "organization name contains invalid characters: only alphanumeric, hyphens, and underscores are allowed".
Proof.
  induction rs as [|r rs IH]; simpl; [by left|].
  destruct (org_rune_invalid r); [by right | exact IH].
Qed.

Lemma len_bytes (s : string) : length (bytes s) = len s.
Proof. induction s as [|c s IH]; simpl; [done | by rewrite IH]. Qed.

Lemma bytes_app (s1 s2 : string) : bytes (s1 +:+ s2) = bytes s1 ++ bytes s2.
Proof.
  induction s1 as [|c s1 IH]; [done|].
  change (String c s1 +:+ s2) with (String c (s1 +:+ s2)). simpl. by rewrite IH.
Qed.

(** The cleaned form of a path is absolute exactly when the path is. *)
Lemma Clean_absolute (p : string) : IsAbs p = true → IsAbs (Clean p) = true.
Proof.
  unfold IsAbs, HasPrefix, Clean. rewrite bytes_of_bytes.
  change (bytes "/") with [Separator].
  destruct (bytes p) as [|c rest]; [done|]. intros Habs.
  assert (Hc : IsPathSeparator c = true).
  { simpl in Habs. by apply andb_true_iff in Habs as [? _]. }
  unfold clean. rewrite Hc.
  pose proof (clean_loop_rooted (length (c :: rest)) rest [Separator] eq_refl) as H.
  destruct (clean_loop _ true rest [Separator] 1) as [|x out]; [done|]. exact H.
Qed.

Lemma render_walk_real (l : list ascii) :
  Forall real_elem (replicate (walk l).1 dotdot ++ reverse (walk l).2).
Proof.
  apply Forall_app. split; [|apply Forall_reverse, walk_real_elem].
  apply Forall_replicate. split; [done | apply dotdot_sepfree].
Qed.

Lemma Clean_relative (p : string) : IsAbs p = false → IsAbs (Clean p) = false.
Proof.
  unfold IsAbs, HasPrefix, Clean. rewrite bytes_of_bytes.
  change (bytes "/") with [Separator].
  destruct (bytes p) as [|c rest]; [done|]. intros Hrel.
  assert (Hc : IsPathSeparator c = false).
  { simpl in Hrel. by rewrite andb_true_r in Hrel. }
  rewrite clean_relative by done.
  destruct (length (render (walk (c :: rest))) =? 0)%nat; [done|].
  apply join_sep_relative, render_walk_real.
Qed.

(** On a relative path the only possible error is the traversal one. *)
Lemma validatePath_relative_cases (p : string) :
  IsAbs p = false →
  validatePath p = None
  ∨ validatePath p
    = Some "path traversal detected: cannot use '..' to escape working directory".
Proof.
  intros Hrel. unfold validatePath.
  destruct (decide (p = "")); [by left|].
  rewrite (Clean_relative p Hrel).
  destruct (_ || _); [by right | by left].
Qed.

(** Two relative paths with the same walk get the same verdict. *)
Lemma validatePath_same_walk (p q : string) :
  IsAbs p = false → IsAbs q = false → walk (bytes p) = walk (bytes q) →
  validatePath p = validatePath q.
Proof.
  intros Hp Hq Hw.
  pose proof (validatePath_relative p Hp) as Hp'.
  pose proof (validatePath_relative q Hq) as Hq'.
  rewrite Hw in Hp'.
  destruct (validatePath_relative_cases p Hp) as [Ep|Ep],
           (validatePath_relative_cases q Hq) as [Eq|Eq];
    rewrite Ep, Eq; try done.
  - apply Hp', Hq' in Ep. by rewrite Ep in Eq.
  - apply Hq', Hp' in Eq. by rewrite Eq in Ep.
Qed.

End ValidatorErrors.

(** X1.  Which error [validateOrganization] reports: a name longer than 128
    bytes is too long, whatever its characters; a name of at most 128 bytes
    with a byte outside [A-Za-z0-9_-] has invalid characters. *)
Theorem validateOrganization_error_kinds (org : string) :
  ((128 < len org)%nat →
   validateOrganization org = Some "organization name too long (max 128 characters)")
  ∧ ((len org ≤ 128)%nat → (∃ c, c ∈ bytes org ∧ c ∉ org_alphabet) →
     validateOrganization org
     = Some "organization name contains invalid characters: only alphanumeric, hyphens, and underscores are allowed").
Proof.
  split.
  - intros Hl. unfold validateOrganization.
    destruct (decide (org = "")) as [->|_]; [simpl in Hl; lia|].
    by rewrite (proj2 (Nat.ltb_lt _ _) Hl).
  - intros Hl (c & Hin & Hc).
    assert (Hne : validateOrganization org ≠ None).
    { rewrite validateOrganization_None. intros [_ Hr].
      unfold range in Hr. rewrite range_from_valid, Forall_forall in Hr.
      by apply Hc, org_alphabet_spec, Hr. }
    unfold validateOrganization in *.
    destruct (decide (org = "")); [done|].
    rewrite (proj2 (Nat.ltb_ge _ _) Hl) in *.
    by destruct (org_runes_check_cases (range org)).
Qed.

Lemma validateOrganization_error_kinds_witness :
  validateOrganization (of_bytes (replicate 129 " "%char))
  = Some "organization name too long (max 128 characters)"
  ∧ validateOrganization "my-org$"
    = Some "organization name contains invalid characters: only alphanumeric, hyphens, and underscores are allowed".
Proof.
  split.
  - apply (validateOrganization_error_kinds (of_bytes (replicate 129 " "%char))).
    vm_compute. lia.
  - apply (validateOrganization_error_kinds "my-org$"); [vm_compute; lia|].
    exists "$"%char. split.
    + apply list_elem_of_In. vm_compute. tauto.
    + rewrite elem_of_existsb. vm_compute. discriminate.
Defined.

(** X2.  Which error [validatePath] reports: the absolute-path error
    exactly on absolute paths, and otherwise nothing or the traversal
    error. *)
Theorem validatePath_error_kinds (p : string) :
  (validatePath p = Some "absolute paths are not allowed" ↔ IsAbs p = true)
  ∧ (validatePath p = None
     ∨ validatePath p = Some "absolute paths are not allowed"
     ∨ validatePath p
       = Some "path traversal detected: cannot use '..' to escape working directory").
Proof.
  destruct (IsAbs p) eqn:Habs.
  - rewrite (validatePath_absolute p Habs). split; [done | by right; left].
  - destruct (validatePath_relative_cases p Habs) as [E|E]; rewrite E.
    + split; [done | by left].
    + split; [done | by right; right].
Qed.

(** ** The verdict of [validatePath] follows the lexical walk *)

Section WalkAlgebra.

(** Splitting at a separator splits the components. *)
Lemma segments_app (l1 l2 : list ascii) :
  segments (l1 ++ Separator :: l2) = segments l1 ++ segments l2.
Proof.
  induction l1 as [|c l1 IH]; [done|].
  simpl. rewrite IH. destruct (IsPathSeparator c); [done|].
  pose proof (segments_nonempty l1) as Hne. by destruct (segments l1).
Qed.

Lemma step_skip (st : nat * list seg) (s : seg) :
  s = [] ∨ s = dot → step st s = st.
Proof. intros H. unfold step. by rewrite decide_True. Qed.

Lemma step_name (st : nat * list seg) (s : seg) :
  is_name s → step st s = (st.1, s :: st.2).
Proof.
  intros (H1 & H2 & H3). unfold step.
  rewrite decide_False by (intros [?|?]; done). by rewrite decide_False.
Qed.

Lemma step_dotdot (st : nat * list seg) :
  step st dotdot
  = match st.2 with
    | _ :: stack' => (st.1, stack')
    | [] => (S st.1, [])
    end.
Proof. unfold step. by rewrite decide_False by (intros [?|?]; done). Qed.

Lemma walk_app (l1 l2 : list ascii) :
  walk (l1 ++ Separator :: l2) = foldl step (walk l1) (segments l2).
Proof. unfold walk. by rewrite segments_app, foldl_app. Qed.

(** A walk that ends without a leading [..] never looked below the stack it
    started from: it can be replayed on top of any other stack. *)
Lemma foldl_step_frame (segs : list seg) :
  ∀ s s' base, foldl step (0%nat, s) segs = (0%nat, s') →
    foldl step (0%nat, s ++ base) segs = (0%nat, s' ++ base).
Proof.
  induction segs as [|x segs IH]; intros s s' base H; simpl in *.
  - by injection H as ->.
  - destruct (decide (x = [] ∨ x = dot)) as [Hs|Hs].
    { rewrite step_skip in H |- * by done. by apply IH. }
    destruct (decide (x = dotdot)) as [->|Hd].
    + rewrite step_dotdot in H |- *. destruct s as [|y s]; simpl in *; [|by apply IH].
      pose proof (foldl_step_ups segs (1%nat, [])) as [Hups _].
      rewrite H in Hups. by destruct Hups.
    + assert (is_name x) as Hn.
      { split_and!; [intros ->; apply Hs; by left | intros ->; apply Hs; by right | done]. }
      rewrite step_name in H |- * by done. by apply (IH (x :: s)).
Qed.

(** The components of a joined list are the list. *)
Lemma segments_sepfree_one (s : seg) : sepfree s → segments s = [s].
Proof.
  induction 1 as [|c s Hc _ IH]; [done|]. simpl. by rewrite Hc, IH.
Qed.

Lemma segments_join (l : list seg) :
  l ≠ [] → Forall sepfree l → segments (join_sep l) = l.
Proof.
  intros Hne Hl. induction Hl as [|s l Hs Hl IH]; [done|].
  destruct l as [|s' l]; [by apply segments_sepfree_one|].
  rewrite join_sep_cons, segments_app, segments_sepfree_one by done.
  by rewrite IH.
Qed.

Lemma foldl_step_dotdots (n k : nat) :
  foldl step (k, []) (replicate n dotdot) = ((k + n)%nat, []).
Proof.
  revert k. induction n as [|n IH]; intros k; simpl.
  - by rewrite Nat.add_0_r.
  - replace (step (k, []) dotdot) with (S k, @nil seg) by done.
    rewrite IH. f_equal. lia.
Qed.

Lemma foldl_step_names (names : list seg) :
  Forall is_name names →
  ∀ st, foldl step st names = (st.1, reverse names ++ st.2).
Proof.
  induction 1 as [|x names Hx _ IH]; intros st; simpl.
  - by destruct st.
  - rewrite IH, step_name by done. simpl.
    by rewrite reverse_cons, <- app_assoc.
Qed.

Lemma walk_names (l : list ascii) : Forall is_name (walk l).2.
Proof. by apply (foldl_step_stack is_name). Qed.

(** Walking the rendering of a walk gives the same state: the cleaned form
    of a relative path is already clean. *)
Lemma walk_render (l : list ascii) :
  render (walk l) ≠ [] → walk (render (walk l)) = walk l.
Proof.
  intros Hne. pose proof (walk_names l) as Hn.
  pose proof (render_walk_real l) as Hreal.
  destruct (walk l) as [ups stack] eqn:Hw. cbn [fst snd] in *.
  unfold walk at 1. unfold render in *. cbn [fst snd] in *.
  rewrite segments_join.
  - rewrite foldl_app, (foldl_step_dotdots ups 0), foldl_step_names
      by by apply Forall_reverse.
    simpl. by rewrite reverse_involutive, app_nil_r.
  - intros E. by rewrite E in Hne.
  - eapply Forall_impl; [exact Hreal|]. by intros ? [_ ?].
Qed.

Lemma IsAbs_app (p q : string) : p ≠ "" → IsAbs (p +:+ q) = IsAbs p.
Proof. by destruct p. Qed.

End WalkAlgebra.

(** X3.  Redundant parts do not change the verdict: a trailing separator on
    a non-empty path, and a leading [./] on a relative path, give the same
    result, error included. *)
Theorem validatePath_redundant_parts (p : string) :
  (p ≠ "" → validatePath (p +:+ "/") = validatePath p)
  ∧ (IsAbs p = false → validatePath ("./" +:+ p) = validatePath p).
Proof.
  split.
  - intros Hne. destruct (IsAbs p) eqn:Habs.
    + rewrite !validatePath_absolute; [done | done | by rewrite IsAbs_app].
    + apply validatePath_same_walk; [by rewrite IsAbs_app | done |].
      rewrite bytes_app. change (bytes "/") with [Separator].
      rewrite walk_app. simpl. by apply step_skip; left.
  - intros Hrel. apply validatePath_same_walk; [done | done |].
    change (bytes ("./" +:+ p)) with (dot ++ Separator :: bytes p).
    by rewrite walk_app.
Qed.

Lemma validatePath_redundant_parts_witness :
  validatePath "packages/my-lib/" = validatePath "packages/my-lib"
  ∧ validatePath "./../secret" = validatePath "../secret".
Proof.
  split.
  - destruct (validatePath_redundant_parts "packages/my-lib") as [H _].
    by apply H.
  - destruct (validatePath_redundant_parts "../secret") as [_ H].
    by apply H.
Defined.

(** X4.  Accepted directories nest: if a non-empty path [a] and a path [b]
    are both accepted, so is [a/b]. *)
Theorem validatePath_join (a b : string) :
  a ≠ "" → validatePath a = None → validatePath b = None →
  validatePath (a +:+ "/" +:+ b) = None.
Proof.
  intros Hne Ha Hb.
  assert (Hra : IsAbs a = false).
  { destruct (IsAbs a) eqn:E; [|done]. by rewrite validatePath_absolute in Ha. }
  assert (Hrb : IsAbs b = false).
  { destruct (IsAbs b) eqn:E; [|done]. by rewrite validatePath_absolute in Hb. }
  apply validatePath_relative in Ha as [Hua Hsa]; [|done].
  apply validatePath_relative in Hb as [Hub Hsb]; [|done].
  apply validatePath_relative; [by rewrite IsAbs_app|].
  rewrite bytes_app. change (bytes ("/" +:+ b)) with (Separator :: bytes b).
  rewrite walk_app.
  destruct (walk (bytes a)) as [ua sa]. destruct (walk (bytes b)) as [ub sb] eqn:Hwb.
  cbn [fst snd] in *. subst ua ub.
  unfold walk in Hwb.
  pose proof (foldl_step_frame _ [] sb sa Hwb) as Hf. cbn [app] in Hf.
  rewrite Hf. cbn [fst snd].
  split; [done | by apply Forall_app].
Qed.

Lemma validatePath_join_witness : validatePath "packages/lib/../core" = None.
Proof.
  apply (validatePath_join "packages" "lib/../core");
    [discriminate | vm_compute; reflexivity | vm_compute; reflexivity].
Defined.

(** X5.  [validatePath] judges the cleaned form: a path and its
    [filepath.Clean] get the same result, error included. *)
Theorem validatePath_Clean (p : string) : validatePath (Clean p) = validatePath p.
Proof.
  destruct (decide (p = "")) as [->|Hne]; [done|].
  destruct (IsAbs p) eqn:Habs.
  - by rewrite !validatePath_absolute by (done || by apply Clean_absolute).
  - apply validatePath_same_walk; [by apply Clean_relative | done |].
    unfold Clean. rewrite bytes_of_bytes.
    destruct (bytes p) as [|c rest] eqn:Hb; [by apply bytes_nil in Hb|].
    assert (Hc : IsPathSeparator c = false).
    { unfold IsAbs, HasPrefix in Habs. rewrite Hb in Habs.
      simpl in Habs. by rewrite andb_true_r in Habs. }
    rewrite clean_relative by done.
    destruct (length (render (walk (c :: rest))) =? 0)%nat eqn:Hlen.
    + apply Nat.eqb_eq, length_zero_iff_nil in Hlen.
      apply render_nil in Hlen as [H1 H2]; [|apply walk_real_elem].
      destruct (walk (c :: rest)) as [ups stack]. simpl in H1, H2. by subst.
    + apply walk_render. intros E. by rewrite E in Hlen.
Qed.

(** ** What [publish] does with its executor *)

Section PublishExecutor.

Context (environ : helpers.Environ) (CombinedOutput : Cmd → RunResult).

(** The run that [publish] asks of its executor. *)
Lemma publish_mock_run (m : MockCommandExecutor) (cfg : Config)
    (rc : plugin.ReleaseContext) :
  validatePath (WorkDir cfg) = None →
  validateOrganization (Organization cfg) = None →
  APIKey cfg ≠ "" →
  ∃ m',
    (publish environ CombinedOutput {| executor := Some m |} cfg rc false).2
    = {| executor := Some m' |}
    ∧ RunFunc m' = RunFunc m
    ∧ Calls m'
      = Calls m ++ [{| Name := "mix";
                       Args := expected_args (Organization cfg) (Replace cfg) (Yes cfg);
                       Env := ["HEX_API_KEY=" +:+ APIKey cfg];
                       Dir := WorkDir cfg |}].
Proof.
  intros Hp Ho Hk. rewrite publish_run_eq by done.
  rewrite publish_args_expected.
  unfold runExecutor, Run, MockCommandExecutor_Run. cbn [executor].
  destruct (RunFunc m) as [f|] eqn:Hf.
  - destruct (f _ _ _ _) as [output [e|]]; eexists; (split; [reflexivity|]); done.
  - eexists. split; [reflexivity|]. done.
Qed.

End PublishExecutor.

(** X6.  With the recording executor, one [publish] records at most one
    run, and it records one exactly when the request is not a dry run, the
    credential is present and both validators pass; the run is [mix] with
    the built arguments, the single assignment [HEX_API_KEY=<credential>]
    and the working directory, so the credential is handed over in the
    environment and not in the arguments. *)
Theorem publish_runs_at_most_once
    (environ : helpers.Environ) (CombinedOutput : Cmd → RunResult)
    (m : MockCommandExecutor) (cfg : Config) (rc : plugin.ReleaseContext)
    (dryRun : bool) :
  ∃ m' calls,
    (publish environ CombinedOutput {| executor := Some m |} cfg rc dryRun).2
    = {| executor := Some m' |}
    ∧ Calls m' = Calls m ++ calls
    ∧ (calls = []
       ∨ calls = [{| Name := "mix";
                     Args := expected_args (Organization cfg) (Replace cfg) (Yes cfg);
                     Env := ["HEX_API_KEY=" +:+ APIKey cfg];
                     Dir := WorkDir cfg |}])
    ∧ (calls ≠ []
       ↔ dryRun = false ∧ APIKey cfg ≠ ""
         ∧ validatePath (WorkDir cfg) = None
         ∧ validateOrganization (Organization cfg) = None).
Proof.
  destruct (validatePath (WorkDir cfg)) as [e|] eqn:Hp.
  { rewrite (publish_invalid_work_dir _ _ _ _ _ _ e Hp).
    exists m, []. rewrite app_nil_r. split_and!; [done | done | by left |].
    split; [done | by intros (_ & _ & ? & _)]. }
  destruct (validateOrganization (Organization cfg)) as [e|] eqn:Ho.
  { rewrite (publish_invalid_organization _ _ _ _ _ _ e Hp Ho).
    exists m, []. rewrite app_nil_r. split_and!; [done | done | by left |].
    split; [done | by intros (_ & _ & _ & ?)]. }
  destruct dryRun.
  { rewrite publish_dry_run_eq by done.
    exists m, []. rewrite app_nil_r. split_and!; [done | done | by left |].
    split; [done | by intros (? & _)]. }
  destruct (decide (APIKey cfg = "")) as [Hk|Hk].
  { unfold publish. rewrite Hp, Ho, bool_decide_eq_true_2 by done.
    exists m, []. rewrite app_nil_r. split_and!; [done | done | by left |].
    split; [done | by intros (_ & ? & _)]. }
  destruct (publish_mock_run environ CombinedOutput m cfg rc Hp Ho Hk)
    as (m' & Hm' & _ & Hcalls).
  exists m', [{| Name := "mix";
                 Args := expected_args (Organization cfg) (Replace cfg) (Yes cfg);
                 Env := ["HEX_API_KEY=" +:+ APIKey cfg];
                 Dir := WorkDir cfg |}].
  split_and!; [done | done | by right |]. split; done.
Qed.

(** X7.  The dry-run preview tells what a real run does: for a valid
    configuration with a credential, the command text of the dry run is the
    program name and the arguments of the run that the real publish
    records, joined by single spaces. *)
Theorem dry_run_command_is_the_real_call
    (environ : helpers.Environ) (CombinedOutput : Cmd → RunResult)
    (m : MockCommandExecutor) (cfg : Config) (rc : plugin.ReleaseContext) :
  validatePath (WorkDir cfg) = None →
  validateOrganization (Organization cfg) = None →
  APIKey cfg ≠ "" →
  ∃ m' c outs,
    (publish environ CombinedOutput {| executor := Some m |} cfg rc false).2
    = {| executor := Some m' |}
    ∧ Calls m' = Calls m ++ [c]
    ∧ plugin.Outputs
        (publish environ CombinedOutput {| executor := Some m |} cfg rc true).1.1
      = Some outs
    ∧ outs !! "command" = Some (VString (Name c +:+ " " +:+ Join (Args c) " ")).
Proof.
  intros Hp Ho Hk.
  destruct (publish_mock_run environ CombinedOutput m cfg rc Hp Ho Hk)
    as (m' & Hm' & _ & Hcalls).
  rewrite publish_dry_run_eq, publish_args_expected by done.
  do 3 eexists. split_and!; [exact Hm' | exact Hcalls | reflexivity |].
  by simplify_map_eq.
Qed.

Lemma dry_run_command_is_the_real_call_witness :
  ∃ m' c outs,
    (publish ∅ (λ _, ("", None)) (mock_plugin ("ok", None))
       {| APIKey := "secret"; Organization := "my-org"; Replace := true;
          Yes := true; WorkDir := "packages/lib" |} (release "1.0.0") false).2
    = {| executor := Some m' |}
    ∧ Calls m' = [] ++ [c]
    ∧ plugin.Outputs
        (publish ∅ (λ _, ("", None)) (mock_plugin ("ok", None))
           {| APIKey := "secret"; Organization := "my-org"; Replace := true;
              Yes := true; WorkDir := "packages/lib" |} (release "1.0.0") true).1.1
      = Some outs
    ∧ outs !! "command" = Some (VString (Name c +:+ " " +:+ Join (Args c) " ")).
Proof.
  apply (dry_run_command_is_the_real_call ∅ (λ _, ("", None))
           {| RunFunc := Some (λ _ _ _ _, ("ok", None)); Calls := [] |}
           {| APIKey := "secret"; Organization := "my-org"; Replace := true;
              Yes := true; WorkDir := "packages/lib" |} (release "1.0.0"));
    [vm_compute; reflexivity | vm_compute; reflexivity | discriminate].
Defined.

(** ** The shape of every response *)

Section Responses.

Lemma append_literal_nonempty (c : ascii) (s t : string) : String c s +:+ t ≠ "".
Proof. discriminate. Qed.

(** The three messages of [publish] are not the message of an unhandled
    hook. *)
Lemma publish_message_cases
    (environ : helpers.Environ) (CombinedOutput : Cmd → RunResult)
    {E : Type} `{!CommandExecutor E} (p : HexPlugin E) (cfg : Config)
    (rc : plugin.ReleaseContext) (dryRun : bool) :
  let r := (publish environ CombinedOutput p cfg rc dryRun).1.1 in
  (plugin.Success r = false ∧ plugin.Message r = "" ∧ plugin.Outputs r = None
   ∧ plugin.Error r ≠ "")
  ∨ (plugin.Success r = true ∧ plugin.Error r = ""
     ∧ (plugin.Message r = "Would publish package to Hex.pm"
        ∨ plugin.Message r
          = "Published package v" +:+ TrimPrefix (plugin.Version rc) "v" +:+ " to Hex.pm")).
Proof.
  unfold publish.
  destruct (validatePath (WorkDir cfg)); [left; by split_and!|].
  destruct (validateOrganization (Organization cfg)); [left; by split_and!|].
  destruct dryRun; [right; split_and!; [done | done | by left]|].
  destruct (bool_decide (APIKey cfg = "")); [left; by split_and!|].
  destruct (runExecutor _ _ _ _ _ _ _) as [[output [e|]] p'].
  - left. by split_and!.
  - right. split_and!; [done | done | by right].
Qed.

End Responses.

(** X8.  Every response of [Execute] is well formed: the error return is
    nil; a response succeeds exactly when its error text is empty; a failed
    response has no message and no outputs; a successful one has a
    message. *)
Theorem Execute_response_invariants
    (environ : helpers.Environ) (CombinedOutput : Cmd → RunResult)
    (HookPostPublish : plugin.Hook)
    {E : Type} `{!CommandExecutor E} (p : HexPlugin E) (req : plugin.ExecuteRequest) :
  ∃ r p',
    Execute environ CombinedOutput HookPostPublish p req = ((r, None), p')
    ∧ (plugin.Success r = true ↔ plugin.Error r = "")
    ∧ (plugin.Success r = false → plugin.Message r = "" ∧ plugin.Outputs r = None)
    ∧ (plugin.Success r = true → plugin.Message r ≠ "").
Proof.
  unfold Execute. destruct (bool_decide _).
  - unfold publish.
    destruct (validatePath _); [do 2 eexists; split; [reflexivity|]; by split_and!|].
    destruct (validateOrganization _); [do 2 eexists; split; [reflexivity|]; by split_and!|].
    destruct (plugin.DryRun req); [do 2 eexists; split; [reflexivity|]; by split_and!|].
    destruct (bool_decide (APIKey _ = ""));
      [do 2 eexists; split; [reflexivity|]; by split_and!|].
    destruct (runExecutor _ _ _ _ _ _ _) as [[output [e|]] p'];
      do 2 eexists; (split; [reflexivity|]); by split_and!.
  - do 2 eexists. split; [reflexivity|]. by split_and!.
Qed.

(** X9.  Of the release context [publish] reads the version only, and the
    version only after normalization: two contexts whose versions agree up
    to one leading [v] give the same result, whatever their tag, release
    type, branch and commit. *)
Theorem publish_reads_version_only
    (environ : helpers.Environ) (CombinedOutput : Cmd → RunResult)
    {E : Type} `{!CommandExecutor E} (p : HexPlugin E) (cfg : Config)
    (rc1 rc2 : plugin.ReleaseContext) (dryRun : bool) :
  TrimPrefix (plugin.Version rc1) "v" = TrimPrefix (plugin.Version rc2) "v" →
  publish environ CombinedOutput p cfg rc1 dryRun
  = publish environ CombinedOutput p cfg rc2 dryRun.
Proof. intros Hv. unfold publish. by rewrite Hv. Qed.

Lemma publish_reads_version_only_witness :
  publish ∅ (λ _, ("", None)) (mock_plugin ("Published", None))
    {| APIKey := "secret"; Organization := ""; Replace := false; Yes := true;
       WorkDir := "." |} (release "v1.0.0") false
  = publish ∅ (λ _, ("", None)) (mock_plugin ("Published", None))
      {| APIKey := "secret"; Organization := ""; Replace := false; Yes := true;
         WorkDir := "." |}
      {| plugin.Version := "1.0.0"; plugin.TagName := "release-1";
         plugin.ReleaseType := "major"; plugin.Branch := "develop";
         plugin.CommitSHA := "def456" |} false.
Proof. apply publish_reads_version_only. reflexivity. Defined.

(** X10.  Without an injected executor, a real publish goes to the
    operating system: one child process [mix] with the built arguments, in
    the working directory, whose environment is the environment of the
    process followed by [HEX_API_KEY=<credential>]; the response follows
    the child's outcome and the plugin still has no executor. *)
Theorem publish_default_executor
    (environ : helpers.Environ) (CombinedOutput : Cmd → RunResult)
    {E : Type} `{!CommandExecutor E} (cfg : Config) (rc : plugin.ReleaseContext) :
  validatePath (WorkDir cfg) = None →
  validateOrganization (Organization cfg) = None →
  APIKey cfg ≠ "" →
  ∃ r,
    publish environ CombinedOutput (E := E) {| executor := None |} cfg rc false
    = ((r, None), {| executor := None |})
    ∧ ∀ output err,
        CombinedOutput
          {| CmdPath := "mix";
             CmdArgs := expected_args (Organization cfg) (Replace cfg) (Yes cfg);
             CmdEnv := Some (os_Environ environ ++ ["HEX_API_KEY=" +:+ APIKey cfg]);
             CmdDir := WorkDir cfg |} = (output, err) →
        (plugin.Success r = true ↔ err = None)
        ∧ (err = None →
           plugin.Outputs r ≫= (.!! "output") = Some (VString output))
        ∧ (∀ e, err = Some e →
           plugin.Error r
           = "mix hex.publish failed: " +:+ e +:+ String "010" "Output: " +:+ output).
Proof.
  intros Hp Ho Hk. rewrite publish_run_eq by done.
  rewrite publish_args_expected.
  unfold runExecutor, RealCommandExecutor_Run. cbn [executor length Nat.ltb Nat.leb].
  destruct (CombinedOutput _) as [output [e|]] eqn:Hco.
  - eexists. split; [reflexivity|]. intros output' err' [= <- <-].
    cbn. split_and!; try done. by intros ? [= ->].
  - eexists. split; [reflexivity|]. intros output' err' [= <- <-].
    cbn. split_and!; try done.
Qed.

Lemma publish_default_executor_witness :
  ∃ r,
    publish {["HOME" := "/root"]}
      (λ cmd, (default "" (last (default [] (CmdEnv cmd))), None))
      (E := MockCommandExecutor) {| executor := None |}
      {| APIKey := "secret"; Organization := ""; Replace := false; Yes := true;
         WorkDir := "." |} (release "1.0.0") false
    = ((r, None), {| executor := None |})
    ∧ plugin.Success r = true
    ∧ plugin.Outputs r ≫= (.!! "output") = Some (VString "HEX_API_KEY=secret").
Proof.
  destruct (publish_default_executor {["HOME" := "/root"]}
              (λ cmd, (default "" (last (default [] (CmdEnv cmd))), None))
              (E := MockCommandExecutor)
              {| APIKey := "secret"; Organization := ""; Replace := false;
                 Yes := true; WorkDir := "." |} (release "1.0.0"))
    as (r & Hr & H); [vm_compute; reflexivity | vm_compute; reflexivity | discriminate |].
  exists r. split; [exact Hr|].
  destruct (H "HEX_API_KEY=secret" None) as (Hs & Hout & _).
  - vm_compute. reflexivity.
  - split; [by apply Hs | by apply Hout].
Defined.

(** ** Metadata, arguments and configuration validation *)

(** The metadata, evaluated: the schema is the 542 bytes of the raw string
    of plugin.go. *)
Example GetInfo_metadata :
  let info := GetInfo "post-publish" (mock_plugin ("", None)) in
  sdk.Name info = "hex" ∧ sdk.Version info = "2.0.0"
  ∧ sdk.Hooks info = ["post-publish"]
  ∧ len (sdk.ConfigSchema info) = 542%nat
  ∧ HasPrefix (sdk.ConfigSchema info) ("{" +:+ nl +:+ tabs 3) = true.
Proof. split_and!; vm_compute; reflexivity. Qed.

(** X11.  The plugin handles exactly the hooks it registers: the hook of a
    request is among the hooks of [GetInfo] if and only if [Execute] does
    not answer that the hook is not handled. *)
Theorem Execute_handles_registered_hooks
    (environ : helpers.Environ) (CombinedOutput : Cmd → RunResult)
    (HookPostPublish : plugin.Hook)
    {E : Type} `{!CommandExecutor E} (p : HexPlugin E) (req : plugin.ExecuteRequest) :
  plugin.Hook_ req ∈ sdk.Hooks (GetInfo HookPostPublish p)
  ↔ plugin.Message (Execute environ CombinedOutput HookPostPublish p req).1.1
    ≠ "Hook " +:+ plugin.Hook_ req +:+ " not handled".
Proof.
  cbn [GetInfo sdk.Hooks]. rewrite list_elem_of_singleton. unfold Execute.
  destruct (decide (plugin.Hook_ req = HookPostPublish)) as [Hh|Hh].
  - rewrite bool_decide_eq_true_2 by done. split; [intros _|done].
    destruct (publish_message_cases environ CombinedOutput p
                (parseConfig environ (plugin.Config req)) (plugin.Context req)
                (plugin.DryRun req)) as [(_ & -> & _)|(_ & _ & [->| ->])];
      discriminate.
  - rewrite bool_decide_eq_false_2 by done. cbn. split; [done|]. by intros [].
Qed.

Section Arguments.

Lemma arg_byte_ok_spec (a : string) :
  forallb arg_byte_ok (bytes a) = true →
  ∀ c, c ∈ bytes a → c = "."%char ∨ c ∈ org_alphabet.
Proof.
  rewrite forallb_forall. intros H c Hc.
  apply list_elem_of_In, H, orb_true_iff in Hc as [Hc|Hc].
  - left. by apply Ascii.eqb_eq.
  - right. by apply elem_of_existsb.
Qed.

Lemma expected_args_elem (org : string) (replace yes : bool) (a : string) :
  a ∈ expected_args org replace yes →
  a ∈ ["hex.publish"; "--organization"; "--replace"; "--yes"]
  ∨ (a = org ∧ org ≠ "").
Proof.
  unfold expected_args. rewrite !elem_of_app. intros [H|[H|[H|H]]].
  - apply list_elem_of_singleton in H as ->. left. rewrite !elem_of_cons. auto.
  - destruct (bool_decide (org = "")) eqn:Hb; [by apply elem_of_nil in H|].
    apply bool_decide_eq_false in Hb.
    rewrite !elem_of_cons, elem_of_nil in H. destruct H as [->|[->|[]]].
    + left. rewrite !elem_of_cons. auto.
    + by right.
  - destruct replace; [|by apply elem_of_nil in H].
    apply list_elem_of_singleton in H as ->. left. rewrite !elem_of_cons. auto.
  - destruct yes; [|by apply elem_of_nil in H].
    apply list_elem_of_singleton in H as ->. left. rewrite !elem_of_cons. auto.
Qed.

End Arguments.

(** X12.  With a valid organization, no argument that [publish] builds is
    empty, and every byte of every argument is a dot or in
    [A-Za-z0-9_-]: no argument holds a space or a shell metacharacter. *)
Theorem publish_args_charset (cfg : Config) :
  validateOrganization (Organization cfg) = None →
  ∀ a, a ∈ publish_args cfg →
    a ≠ "" ∧ ∀ c, c ∈ bytes a → c = "."%char ∨ c ∈ org_alphabet.
Proof.
  intros Ho a Ha.
  rewrite publish_args_expected in Ha.
  destruct (expected_args_elem _ _ _ _ Ha) as [Hfix|[-> Hne]].
  - split.
    + intros ->. rewrite !elem_of_cons, elem_of_nil in Hfix.
      by destruct Hfix as [?|[?|[?|[?|[]]]]].
    + apply arg_byte_ok_spec.
      repeat (apply elem_of_cons in Hfix as [->|Hfix]; [vm_compute; reflexivity|]).
      by apply elem_of_nil in Hfix.
  - split; [done|]. intros c Hc. right.
    apply validateOrganization_None in Ho as [_ Hr].
    unfold range in Hr. rewrite range_from_valid, Forall_forall in Hr.
    by apply org_alphabet_spec, Hr.
Qed.

Lemma publish_args_charset_witness :
  "my-org" ≠ "" ∧ ∀ c, c ∈ bytes "my-org" → c = "."%char ∨ c ∈ org_alphabet.
Proof.
  apply (publish_args_charset
           {| APIKey := "s3cr3t key"; Organization := "my-org";
              Replace := true; Yes := true; WorkDir := "." |}).
  - vm_compute. reflexivity.
  - apply list_elem_of_In. vm_compute. tauto.
Defined.

Section ValidateConfig.

Context (environ : helpers.Environ) {E : Type}.

(** [Validate] in terms of the two validators on the resolved values. *)
Lemma Validate_eq (p : HexPlugin E) (raw : gmap string any) :
  Validate environ p raw
  = ({| sdk.Valid :=
          bool_decide (validatePath (WorkDir (parseConfig environ raw)) = None
                       ∧ validateOrganization (Organization (parseConfig environ raw)) = None);
        sdk.Errors :=
          match validatePath (WorkDir (parseConfig environ raw)) with
          | Some e => [{| sdk.Field := "work_dir"; sdk.Message := e |}]
          | None => []
          end
          ++ match validateOrganization (Organization (parseConfig environ raw)) with
             | Some e => [{| sdk.Field := "organization"; sdk.Message := e |}]
             | None => []
             end |}, None).
Proof.
  unfold Validate, parseConfig. cbn [WorkDir Organization].
  destruct (validatePath _) as [e1|], (validateOrganization _) as [e2|];
    unfold sdk.Build, sdk.AddError, sdk.NewValidationBuilder; cbn; f_equal; f_equal;
    symmetry; (apply bool_decide_eq_true_2 || apply bool_decide_eq_false_2); intuition congruence.
Qed.

End ValidateConfig.

(** X13.  A configuration validates exactly when its dry run succeeds:
    [Validate] answers valid if and only if the post-publish dry run of
    [Execute] with the same configuration and environment succeeds. *)
Theorem Validate_agrees_with_dry_run
    (environ : helpers.Environ) (CombinedOutput : Cmd → RunResult)
    (hook : plugin.Hook)
    {E : Type} `{!CommandExecutor E} (p : HexPlugin E)
    (raw : gmap string any) (rc : plugin.ReleaseContext) :
  sdk.Valid (Validate environ p raw).1
  = plugin.Success
      (Execute environ CombinedOutput hook p
         {| plugin.Hook_ := hook; plugin.Config := raw;
            plugin.Context := rc; plugin.DryRun := true |}).1.1.
Proof.
  rewrite Validate_eq. unfold Execute. cbn [plugin.Hook_ plugin.Config
    plugin.Context plugin.DryRun fst sdk.Valid].
  rewrite (bool_decide_eq_true_2 (hook = hook)) by done.
  destruct (validatePath (WorkDir (parseConfig environ raw))) as [e1|] eqn:Hp.
  { rewrite (publish_invalid_work_dir _ _ _ _ _ _ e1 Hp).
    by rewrite bool_decide_eq_false_2 by (by intros [? _]). }
  destruct (validateOrganization (Organization (parseConfig environ raw))) as [e2|] eqn:Ho.
  { rewrite (publish_invalid_organization _ _ _ _ _ _ e2 Hp Ho).
    by rewrite bool_decide_eq_false_2 by (by intros [_ ?]). }
  rewrite publish_dry_run_eq by done. by rewrite bool_decide_eq_true_2.
Qed.

(** X14.  The first error of [Validate] is the error of [Execute]: when
    [Validate] reports errors, the post-publish [Execute] of the same
    configuration, dry run or not, fails with ["invalid <field>: <message>"]
    for the first of them and leaves the plugin untouched. *)
Theorem Validate_first_error_is_Execute_error
    (environ : helpers.Environ) (CombinedOutput : Cmd → RunResult)
    (hook : plugin.Hook)
    {E : Type} `{!CommandExecutor E} (p : HexPlugin E)
    (raw : gmap string any) (rc : plugin.ReleaseContext) (dryRun : bool)
    (e : sdk.ValidationError) (rest : list sdk.ValidationError) :
  sdk.Errors (Validate environ p raw).1 = e :: rest →
  Execute environ CombinedOutput hook p
    {| plugin.Hook_ := hook; plugin.Config := raw;
       plugin.Context := rc; plugin.DryRun := dryRun |}
  = (({| plugin.Success := false; plugin.Message := "";
         plugin.Error := "invalid " +:+ sdk.Field e +:+ ": " +:+ sdk.Message e;
         plugin.Outputs := None |}, None), p).
Proof.
  rewrite Validate_eq. unfold Execute. cbn [plugin.Hook_ plugin.Config
    plugin.Context plugin.DryRun fst sdk.Errors].
  rewrite (bool_decide_eq_true_2 (hook = hook)) by done.
  destruct (validatePath (WorkDir (parseConfig environ raw))) as [e1|] eqn:Hp.
  { intros [= <- _]. by rewrite (publish_invalid_work_dir _ _ _ _ _ _ e1 Hp). }
  destruct (validateOrganization (Organization (parseConfig environ raw))) as [e2|] eqn:Ho.
  { intros [= <- _]. by rewrite (publish_invalid_organization _ _ _ _ _ _ e2 Hp Ho). }
  discriminate.
Qed.

Lemma Validate_first_error_is_Execute_error_witness :
  Execute ∅ (λ _, ("", None)) "post-publish" (mock_plugin ("mock output", None))
    {| plugin.Hook_ := "post-publish";
       plugin.Config := <["work_dir" := VString "/etc/passwd"]>
                          {["organization" := VString "my org"]};
       plugin.Context := release "1.0.0"; plugin.DryRun := false |}
  = (({| plugin.Success := false; plugin.Message := "";
         plugin.Error := "invalid work_dir: absolute paths are not allowed";
         plugin.Outputs := None |}, None), mock_plugin ("mock output", None)).
Proof.
  apply (Validate_first_error_is_Execute_error ∅ (λ _, ("", None)) "post-publish"
           (mock_plugin ("mock output", None))
           (<["work_dir" := VString "/etc/passwd"]>
              {["organization" := VString "my org"]})
           (release "1.0.0") false
           {| sdk.Field := "work_dir"; sdk.Message := "absolute paths are not allowed" |}
           [{| sdk.Field := "organization";
               sdk.Message := "organization name contains invalid characters: only alphanumeric, hyphens, and underscores are allowed" |}]).
  vm_compute. reflexivity.
Defined.

(** X15.  [Validate] reads the working directory and the organization
    only: two configurations that agree on [work_dir] and [organization],
    in environments that agree on [HEX_ORGANIZATION], get the same answer,
    so a configuration validates with or without a credential. *)
Theorem Validate_reads_work_dir_and_organization
    (env1 env2 : helpers.Environ) {E : Type} (p : HexPlugin E)
    (raw1 raw2 : gmap string any) :
  raw1 !! "work_dir" = raw2 !! "work_dir" →
  raw1 !! "organization" = raw2 !! "organization" →
  env1 !! "HEX_ORGANIZATION" = env2 !! "HEX_ORGANIZATION" →
  Validate env1 p raw1 = Validate env2 p raw2.
Proof.
  intros Hw Ho He. unfold Validate, helpers.GetString. cbn [helpers.raw].
  by rewrite Hw, Ho, He.
Qed.

Lemma Validate_reads_work_dir_and_organization_witness :
  Validate {["HEX_API_KEY" := "env-key"]} (mock_plugin ("mock output", None))
    (<["api_key" := VString "test-key-123"]> {["organization" := VString "my org"]})
  = Validate ∅ (mock_plugin ("mock output", None))
      {["organization" := VString "my org"]}.
Proof.
  apply Validate_reads_work_dir_and_organization; reflexivity.
Defined.

(** X16.  What acceptance guarantees: the cleaned form of an accepted path
    is relative and has no [..] component, although the path itself may
    have some. *)
Theorem validatePath_accepted_clean_form (p : string) :
  validatePath p = None →
  IsAbs (Clean p) = false ∧ dotdot ∉ segments (bytes (Clean p)).
Proof.
  intros Hv.
  assert (Hrel : IsAbs p = false).
  { destruct (IsAbs p) eqn:E; [|done]. by rewrite validatePath_absolute in Hv. }
  split; [by apply Clean_relative|].
  apply validatePath_relative in Hv as [Hups _]; [|done].
  unfold Clean. rewrite bytes_of_bytes.
  destruct (bytes p) as [|c rest] eqn:Hb.
  { rewrite list_elem_of_In. vm_compute. by intros [?|[]]. }
  assert (Hc : IsPathSeparator c = false).
  { unfold IsAbs, HasPrefix in Hrel. rewrite Hb in Hrel.
    simpl in Hrel. by rewrite andb_true_r in Hrel. }
  rewrite clean_relative by done.
  destruct (length (render (walk (c :: rest))) =? 0)%nat eqn:Hlen.
  { rewrite list_elem_of_In. vm_compute. by intros [?|[]]. }
  pose proof (walk_names (c :: rest)) as Hn.
  pose proof (render_walk_real (c :: rest)) as Hreal.
  destruct (walk (c :: rest)) as [ups stack]. cbn [fst snd] in *. subst ups.
  unfold render in *. cbn [fst snd replicate app] in *.
  rewrite segments_join.
  - rewrite elem_of_reverse. intros Hin.
    rewrite Forall_forall in Hn. by destruct (Hn _ Hin) as (_ & _ & ?).
  - intros E. by rewrite E in Hlen.
  - eapply Forall_impl; [exact Hreal|]. by intros ? [_ ?].
Qed.

Lemma validatePath_accepted_clean_form_witness :
  IsAbs (Clean "a/../b") = false ∧ dotdot ∉ segments (bytes (Clean "a/../b")).
Proof.
  apply validatePath_accepted_clean_form. vm_compute. reflexivity.
Defined.
